(** * mimic_utils.transpile: the tree passes of [transpile_query]

    A shallow embedding of [src/mimic_utils/transpile.py].  The function
    parses a query with sqlglot, edits the parsed tree in two loops (the
    catalog normaliser over the [exp.Table] nodes, the function resolver over
    the [exp.Anonymous] nodes) and renders the tree again.

    sqlglot itself is an external library.  Its syntax trees are modelled as
    they are built there: a node is a class together with its [args]
    dictionary, whose values are strings, booleans, [None], nodes or lists of
    nodes.  The parser and the generator are parameters of the development
    (Section [Engine]); the accessors the loops use ([text], [name],
    [to_identifier], [find_all], [replace]) are modelled from their sqlglot
    definitions and documented where they are declared.

    The two drivers of the module, [transpile_file] and [transpile_folder],
    are modelled over a file system whose operations are parameters (Section
    [Drivers]); paths are modelled as [pathlib] splits them into parts. *)

From Stdlib Require Import String Ascii List Bool Arith Lia.
Import ListNotations.
Local Open Scope string_scope.
Local Open Scope list_scope.

(** ** Python strings *)

Module PyStr.

(** [s.startswith(p)]. *)
Definition startswith (s p : string) : bool := String.prefix p s.

(** [s.replace(old, new)] for a non-empty [old]: the occurrences of [old]
    are replaced from left to right, the search continuing after each
    replaced occurrence.  [skip] counts the characters of a matched
    occurrence that are still to be dropped. *)
Fixpoint replace_from (old new : string) (skip : nat) (s : string) : string :=
  match s with
  | EmptyString => EmptyString
  | String c s' =>
      match skip with
      | S k => replace_from old new k s'
      | O =>
          if startswith s old
          then new ++ replace_from old new (String.length old - 1) s'
          else String c (replace_from old new 0 s')
      end
  end.

Definition replace (s old new : string) : string := replace_from old new 0 s.

(** [old in s]: [old] occurs in [s] at some position. *)
Fixpoint contains (s old : string) : bool :=
  startswith s old ||
  match s with
  | EmptyString => false
  | String _ s' => contains s' old
  end.

End PyStr.

(** ** Exceptions and results *)

Inductive exn : Type :=
  | AttributeError
  | ValueError
  | ParseError (msg : string)
  | TokenError (msg : string)
  | UnsupportedError (msg : string).

(** The outcome of a call: a value, a raised exception, or [OutOfFuel] for a
    traversal that was cut short by its step bound.  [OutOfFuel] is an
    artefact of the model; the passes of this file never produce it
    (Lemmas [catalog_normalizer_terminates] and [function_resolver_terminates]). *)
Inductive result (A : Type) : Type :=
  | Ok (a : A)
  | Raise (e : exn)
  | OutOfFuel.

Arguments Ok {A} a.
Arguments Raise {A} e.
Arguments OutOfFuel {A}.

Definition bind {A B : Type} (m : result A) (k : A -> result B) : result B :=
  match m with
  | Ok a => k a
  | Raise e => Raise e
  | OutOfFuel => OutOfFuel
  end.

Declare Scope result_scope.
Delimit Scope result_scope with result.
Notation "x <- m ;; k" := (bind m (fun x => k))
  (at level 61, m at next level, right associativity) : result_scope.
Local Open Scope result_scope.

(** [mapM f l]: [f] on every element from left to right, stopping at the
    first one that does not return. *)
Fixpoint mapM {A B : Type} (f : A -> result B) (l : list A) : result (list B) :=
  match l with
  | [] => Ok []
  | a :: l' => b <- f a ;; bs <- mapM f l' ;; Ok (b :: bs)
  end.

(** ** Syntax trees *)

(** The node classes the two loops distinguish.  [Identifier], [Literal] and
    [Var] are the classes [Expression.text] looks into.  [DateTime] and
    [GenerateArray] are the classes of [mimic_utils/patches/postgres.py], a
    module of the repository that is not among the sources.
    Modelled from the spec: a typed function-call node is an ordinary node (a
    class with an [args] dictionary made of the keyword arguments given to the
    constructor) that is not an instance of [exp.Anonymous]. *)
Inductive class : Type :=
  | Table
  | Identifier
  | Literal
  | Var
  | Anonymous
  | DateTime
  | GenerateArray
  | Other (name : string).

(** The values an [args] dictionary holds. *)
Inductive value (E : Type) : Type :=
  | PyNone
  | PyStr (s : string)
  | PyBool (b : bool)
  | PyExpr (e : E)
  | PyList (l : list E).

Arguments PyNone {E}.
Arguments PyStr {E} s.
Arguments PyBool {E} b.
Arguments PyExpr {E} e.
Arguments PyList {E} l.

#[warnings="-register-all"]
Inductive Expression : Type :=
  | Expr (cls : class) (args : list (string * value Expression)).

Definition dict : Type := list (string * value Expression).

Definition cls_of (e : Expression) : class := let 'Expr c _ := e in c.
Definition args_of (e : Expression) : dict := let 'Expr _ a := e in a.

Definition class_eqb (a b : class) : bool :=
  match a, b with
  | Table, Table | Identifier, Identifier | Literal, Literal | Var, Var
  | Anonymous, Anonymous | DateTime, DateTime
  | GenerateArray, GenerateArray => true
  | Other x, Other y => String.eqb x y
  | _, _ => false
  end.

(** [isinstance(e, c)], the classes of this model having no subclasses. *)
Definition isinstance (e : Expression) (c : class) : bool := class_eqb (cls_of e) c.

(** *** Dictionaries: insertion-ordered, one entry per key *)

(** [d.get(k)]. *)
Fixpoint dict_get (k : string) (d : dict) : value Expression :=
  match d with
  | [] => PyNone
  | (k', v) :: d' => if String.eqb k k' then v else dict_get k d'
  end.

(** [d[k] = v]: the entry of [k] is overwritten where it stands, a new key is
    appended. *)
Fixpoint dict_set (k : string) (v : value Expression) (d : dict) : dict :=
  match d with
  | [] => [(k, v)]
  | (k', v') :: d' =>
      if String.eqb k k' then (k', v) :: d' else (k', v') :: dict_set k v d'
  end.

(** [k in d]. *)
Fixpoint dict_mem (k : string) (d : dict) : bool :=
  match d with
  | [] => false
  | (k', _) :: d' => String.eqb k k' || dict_mem k d'
  end.

(** [v == s] for a string [s]: only a string equals a string. *)
Definition eq_str (v : value Expression) (s : string) : bool :=
  match v with
  | PyStr s' => String.eqb s' s
  | _ => false
  end.

(** *** Accessors of [sqlglot.expressions.Expression] *)

(** [e.this], that is [e.args.get("this")]. *)
Definition this (e : Expression) : value Expression := dict_get "this" (args_of e).

(** [e.text(key)]: the string held under [key], or the [this] of an
    identifier, literal or variable held there, or the empty string.  (Later
    versions of sqlglot also read a star as the string of an asterisk and a
    null as [NULL]; neither is the marker or starts with it, so the loops
    below take the same branches.) *)
Definition text (e : Expression) (key : string) : value Expression :=
  match dict_get key (args_of e) with
  | PyStr s => PyStr s
  | PyExpr f =>
      if isinstance f Identifier || isinstance f Literal || isinstance f Var
      then this f
      else PyStr ""
  | _ => PyStr ""
  end.

(** [e.name], the property [text("this")] of the base class; the classes of
    this model are taken not to override it. *)
Definition name (e : Expression) : value Expression := text e "this".

(** [table.catalog], the property [text("catalog")] of [exp.Table]. *)
Definition catalog (table : Expression) : value Expression := text table "catalog".

(** [e.args[key] = v], an assignment into the dictionary of a node. *)
Definition set_arg (e : Expression) (key : string) (v : value Expression) : Expression :=
  Expr (cls_of e) (dict_set key v (args_of e)).

(** [sqlglot.expressions.to_identifier(name, quoted)] with [quoted] given:
    [None] stays [None], an identifier is returned as it is, a string makes a
    new identifier, anything else is a [ValueError]. *)
Definition to_identifier (name : value Expression) (quoted : bool)
  : result (value Expression) :=
  match name with
  | PyNone => Ok PyNone
  | PyStr s => Ok (PyExpr (Expr Identifier [("this", PyStr s); ("quoted", PyBool quoted)]))
  | PyExpr e => if isinstance e Identifier then Ok (PyExpr e) else Raise ValueError
  | _ => Raise ValueError
  end.

(** *** Children and height *)

(** The nodes held by a value: the value itself or the elements of a list. *)
Definition value_exprs {E : Type} (v : value E) : list E :=
  match v with
  | PyExpr e => [e]
  | PyList l => l
  | _ => []
  end.

(** [e.iter_expressions()]: the nodes held in [e.args], in dictionary order. *)
Definition children (e : Expression) : list Expression :=
  flat_map (fun kv => value_exprs (snd kv)) (args_of e).

Fixpoint height (e : Expression) : nat :=
  match e with
  | Expr _ args =>
      S ((fix over_args (d : dict) : nat :=
            match d with
            | [] => 0
            | (_, v) :: d' =>
                Nat.max
                  match v with
                  | PyExpr e' => height e'
                  | PyList l =>
                      (fix over_list (l : list Expression) : nat :=
                         match l with
                         | [] => 0
                         | e' :: l' => Nat.max (height e') (over_list l')
                         end) l
                  | _ => 0
                  end
                  (over_args d')
            end) args)
  end.

(** ** Trees: induction over the children *)

Section Expression_induction.

Variable P : Expression -> Prop.
Hypothesis node :
  forall c args, Forall P (children (Expr c args)) -> P (Expr c args).

Fixpoint Expression_children_ind (e : Expression) : P e :=
  match e with
  | Expr c args =>
      node c args
        ((fix over_args (d : dict)
            : Forall P (flat_map (fun kv => value_exprs (snd kv)) d) :=
            match d with
            | [] => Forall_nil P
            | (k, v) :: d' =>
                proj2 (Forall_app P (value_exprs v) _)
                  (conj
                     match v return Forall P (value_exprs v) with
                     | PyExpr e' =>
                         Forall_cons e' (Expression_children_ind e') (Forall_nil P)
                     | PyList l =>
                         (fix over_list (l : list Expression) : Forall P l :=
                            match l with
                            | [] => Forall_nil P
                            | e' :: l' =>
                                Forall_cons e' (Expression_children_ind e') (over_list l')
                            end) l
                     | _ => Forall_nil P
                     end
                     (over_args d'))
            end) args)
  end.

End Expression_induction.

(** ** Traversal: [for node in tree.find_all(c): body] *)

(** [f] on the nodes a value holds. *)
Definition value_mapM (f : Expression -> result Expression) (v : value Expression)
  : result (value Expression) :=
  match v with
  | PyNone => Ok PyNone
  | PyStr s => Ok (PyStr s)
  | PyBool b => Ok (PyBool b)
  | PyExpr e => e' <- f e ;; Ok (PyExpr e')
  | PyList l => l' <- mapM f l ;; Ok (PyList l')
  end.

(** [f] on the children of a node, through its dictionary. *)
Definition args_mapM (f : Expression -> result Expression) (d : dict) : result dict :=
  mapM (fun kv => v' <- value_mapM f (snd kv) ;; Ok (fst kv, v')) d.

(** [find_all] walks the tree from the root and yields a node before it looks
    up the children of that node, so the loop body has already edited a node
    when the walk descends into it: the walk continues in the children of the
    edited node.  [body has_parent e] is the node that stands in the place of
    [e] once the loop body has run on it; [has_parent] is false at the root
    only.  [fuel] bounds the depth of the descent. *)
Fixpoint for_each (fuel : nat) (c : class)
    (body : bool -> Expression -> result Expression)
    (has_parent : bool) (e : Expression) : result Expression :=
  match fuel with
  | O => OutOfFuel
  | S fuel' =>
      e1 <- (if isinstance e c then body has_parent e else Ok e) ;;
      args1 <- args_mapM (for_each fuel' c body true) (args_of e1) ;;
      Ok (Expr (cls_of e1) args1)
  end.

(** The loop on a whole tree: the depth of the descent is bounded by the
    height of the tree, which is enough (Lemmas [run_unfold], [run_returns]). *)
Definition run (c : class) (body : bool -> Expression -> result Expression)
    (has_parent : bool) (e : Expression) : result Expression :=
  for_each (height e) c body has_parent e.

(** ** The catalog normaliser (lines 24 to 36) *)

Definition catalog_to_remove : string := "physionet-data".

(** The body of the loop over the tables.  [table.this.name] and
    [name.startswith] raise [AttributeError] when [table.this] is not a node
    or its name is not a string. *)
Definition normalize_table (table : Expression) : result Expression :=
  if eq_str (catalog table) catalog_to_remove then
    Ok (set_arg table "catalog" PyNone)
  else
    match this table with
    | PyExpr table_this =>
        match name table_this with
        | PyStr this_name =>
            if PyStr.startswith this_name catalog_to_remove then
              let table_this :=
                set_arg table_this "this"
                  (PyStr (PyStr.replace this_name (catalog_to_remove ++ ".")%string "")) in
              let table := set_arg table "this" (PyExpr table_this) in
              identifier <- to_identifier (dict_get "this" (args_of table_this)) false ;;
              Ok (set_arg table "this" identifier)
            else Ok table
        | _ => Raise AttributeError
        end
    | _ => Raise AttributeError
    end.

(** The loop: the body edits the table where it stands, root or not. *)
Definition catalog_normalizer (sql_parsed : Expression) : result Expression :=
  run Table (fun _ => normalize_table) false sql_parsed.

(** ** The function resolver (lines 38 to 52) *)

(** The typed node the loop body builds for an anonymous call, if any:
    [DateTime] or [GenerateArray], called with the dictionary
    [anon_function.args] unpacked into keyword arguments. *)
Definition named_function (anon_function : Expression) : option Expression :=
  if eq_str (this anon_function) "DATETIME" then
    Some (Expr DateTime (args_of anon_function))
  else if eq_str (this anon_function) "GENERATE_ARRAY" then
    Some (Expr GenerateArray (args_of anon_function))
  else None.

(** [self.replace(expression)]: [expression] takes the place of [self] in the
    parent of [self]; on a node without a parent the call changes nothing (it
    returns [expression], which the loop drops, so [sql_parsed] stays bound to
    the old root).  The walk then goes on in the arguments of the old node,
    which are the arguments of the new one: the typed node is built from the
    same dictionary values.

    At a root that is itself a recognised call the walk of this model is an
    approximation.  The typed node the loop drops has become the parent of
    the arguments of the root, so a recognised call that is an argument of
    such a root is replaced in the dropped node; whether the root holds the
    typed node afterwards depends on whether [replace] of the sqlglot in use
    edits the list of arguments in place or puts a new list into the parent.
    That the step leaves no recognised call is therefore stated below for
    trees whose root is not a recognised call. *)
Definition replace (has_parent : bool) (self expression : Expression) : Expression :=
  if has_parent then expression else self.

(** The body of the loop over the anonymous calls. *)
Definition resolve_anonymous (has_parent : bool) (anon_function : Expression)
  : result Expression :=
  match named_function anon_function with
  | Some named => Ok (replace has_parent anon_function named)
  | None => Ok anon_function
  end.

(** The step as a whole, run only for the source dialect [bigquery]. *)
Definition function_resolver (source_dialect : string) (sql_parsed : Expression)
  : result Expression :=
  if String.eqb source_dialect "bigquery" then
    run Anonymous resolve_anonymous false sql_parsed
  else Ok sql_parsed.

(** ** The orchestrator (lines 18 to 57) *)

Section Engine.

(** [sqlglot.parse_one(query, read=dialect)]. *)
Variable parse_one : string -> string -> result Expression.

(** [tree.sql(dialect=dialect, pretty=pretty)]. *)
Variable sql : Expression -> string -> bool -> result string.

Definition transpile_query (query source_dialect destination_dialect : string)
  : result string :=
  sql_parsed <- parse_one query source_dialect ;;
  sql_parsed <- catalog_normalizer sql_parsed ;;
  sql_parsed <- function_resolver source_dialect sql_parsed ;;
  sql sql_parsed destination_dialect true.

End Engine.

(** ** Sample trees *)

Module Samples.

Definition identifier (s : string) (quoted : bool) : Expression :=
  Expr Identifier [("this", PyStr s); ("quoted", PyBool quoted)].

Definition literal (s : string) (is_string : bool) : Expression :=
  Expr Literal [("this", PyStr s); ("is_string", PyBool is_string)].

Definition column (s : string) : Expression :=
  Expr (Other "Column") [("this", PyExpr (identifier s false))].

Definition star : Expression := Expr (Other "Star") [].

Definition table (this_ : Expression) (db catalog_ : value Expression) : Expression :=
  Expr Table [("this", PyExpr this_); ("db", db); ("catalog", catalog_)].

Definition anonymous (callee : string) (arguments : list Expression) : Expression :=
  Expr Anonymous [("this", PyStr callee); ("expressions", PyList arguments)].

(** [SELECT <expressions> FROM <t>]. *)
Definition select_from (expressions : list Expression) (t : Expression) : Expression :=
  Expr (Other "Select")
    [("expressions", PyList expressions);
     ("from", PyExpr (Expr (Other "From") [("this", PyExpr t)]))].

(** A quoted name that starts with the marker but not with the marker and
    a dot. *)
Definition near_miss : Expression :=
  table (identifier "physionet-data2.foo" true) PyNone PyNone.


(** The marker as catalog, and a name that starts with the marker. *)
Definition marker_in_both : Expression :=
  table (identifier "physionet-data.x" true) PyNone
    (PyExpr (identifier "physionet-data" true)).

(** A name in which the removal of one occurrence puts together another. *)
Definition spliced : Expression :=
  table (identifier "physionet-data.physionet-dphysionet-data.ata.x" true)
    PyNone PyNone.

(** The call [DATETIME(a, 'UTC')]. *)
Definition datetime_call : Expression :=
  anonymous "DATETIME" [column "a"; literal "UTC" true].

(** The call [datetime(a, 'UTC')], in lower case. *)
Definition lower_case_call : Expression :=
  anonymous "datetime" [column "a"; literal "UTC" true].

(** A parser that knows two queries, and a generator that knows the trees
    the passes make of them. *)
Definition parse_one (query dialect : string) : result Expression :=
  if String.eqb query "SELECT * FROM `physionet-data.mimiciv.patients`" then
    Ok (select_from [star]
          (table (identifier "physionet-data.mimiciv.patients" true) PyNone PyNone))
  else Raise (ParseError "Expecting )").

Definition sql (e : Expression) (dialect : string) (pretty : bool) : result string :=
  match e with
  | Expr (Other "Select") _ => Ok "SELECT * FROM mimiciv.patients"
  | _ => Raise (UnsupportedError "unknown tree")
  end.

End Samples.

(** ** Trees a pass leaves alone *)

(** [p] on every node of a tree. *)
Fixpoint all_nodes (p : Expression -> bool) (e : Expression) : bool :=
  p e &&
  match e with
  | Expr _ args =>
      (fix over_args (d : dict) : bool :=
         match d with
         | [] => true
         | (_, v) :: d' =>
             match v with
             | PyExpr e' => all_nodes p e'
             | PyList l =>
                 (fix over_list (l : list Expression) : bool :=
                    match l with
                    | [] => true
                    | e' :: l' => all_nodes p e' && over_list l'
                    end) l
             | _ => true
             end && over_args d'
         end) args
  end.

(** A bare unquoted identifier, as [to_identifier(name, quoted=False)] builds
    it: the name and the flag, nothing else. *)
Definition unquoted_identifier (e : Expression) : bool :=
  match e with
  | Expr Identifier [(key, PyStr _); (key', PyBool false)] =>
      String.eqb key "this" && String.eqb key' "quoted"
  | _ => false
  end.

(** A node at rest: the second branch of the loop body has nothing to change
    on it.  Not a table; or a table whose name does not start with the
    marker; or a table whose name is held by a bare unquoted identifier and
    has no occurrence of the marker and a dot, so that the identifier the
    branch builds is the one that stands there. *)
Definition at_rest (e : Expression) : bool :=
  if isinstance e Table then
    match this e with
    | PyExpr table_this =>
        match name table_this with
        | PyStr this_name =>
            negb (PyStr.startswith this_name catalog_to_remove) ||
            (unquoted_identifier table_this &&
             negb (PyStr.contains this_name (catalog_to_remove ++ ".")))
        | _ => false
        end
    | _ => false
    end
  else true.

(** Two values are the same string or neither is a string. *)
Definition same_str (v v1 : value Expression) : Prop :=
  forall s, v = PyStr s <-> v1 = PyStr s.

(** ** Shapes of trees the passes are stated on *)

(** The name the loop over the tables reads in a table, [table.this.name],
    when [table.this] is a node and the name a string. *)
Definition table_name (table : Expression) : option string :=
  match this table with
  | PyExpr table_this =>
      match name table_this with
      | PyStr this_name => Some this_name
      | _ => None
      end
  | _ => None
  end.

(** A table whose catalog is the marker. *)
Definition has_marker_catalog (e : Expression) : bool :=
  isinstance e Table && eq_str (catalog e) catalog_to_remove.

(** A node on which the loop over the tables does not raise: not a table, or
    a table with the marker as catalog, or a table with a name. *)
Definition named_table (e : Expression) : bool :=
  negb (isinstance e Table) ||
  eq_str (catalog e) catalog_to_remove ||
  match table_name e with Some _ => true | None => false end.

(** A node the loop over the tables has nothing to do on: not a table, or a
    table whose catalog is not the marker and whose name does not start with
    the marker. *)
Definition clean_table (e : Expression) : bool :=
  negb (isinstance e Table) ||
  (negb (eq_str (catalog e) catalog_to_remove) &&
   match table_name e with
   | Some this_name => negb (PyStr.startswith this_name catalog_to_remove)
   | None => false
   end).

(** An anonymous call the loop over the anonymous calls recognises. *)
Definition recognised (e : Expression) : bool :=
  isinstance e Anonymous &&
  (eq_str (this e) "DATETIME" || eq_str (this e) "GENERATE_ARRAY").

(** A node of one of the two typed classes. *)
Definition typed (e : Expression) : bool :=
  isinstance e DateTime || isinstance e GenerateArray.

Definition value_map (f : Expression -> Expression) (v : value Expression)
  : value Expression :=
  match v with
  | PyExpr e => PyExpr (f e)
  | PyList l => PyList (map f l)
  | _ => v
  end.

(** Every typed node turned back into an anonymous call with the same
    dictionary. *)
Fixpoint unresolve (e : Expression) : Expression :=
  match e with
  | Expr c args =>
      Expr (match c with DateTime | GenerateArray => Anonymous | _ => c end)
        (map (fun kv => (fst kv, value_map unresolve (snd kv))) args)
  end.

(** ** Sample trees for the passes *)

Module SampleTrees.

(** A table without a name: [this] is [None]. *)
Definition nameless_table : Expression :=
  Expr Table [("this", PyNone); ("db", PyNone); ("catalog", PyNone)].

(** [SELECT DATETIME(a, 'UTC') FROM `physionet-data`.`physionet-data.x`]. *)
Definition marked_query : Expression :=
  Samples.select_from [Samples.datetime_call] Samples.marker_in_both.

(** [SELECT * FROM <a table without a name>]. *)
Definition nameless_query : Expression :=
  Samples.select_from [Samples.star] nameless_table.

(** [SELECT a FROM mimiciv.patients]. *)
Definition clean_query : Expression :=
  Samples.select_from [Samples.column "a"]
    (Samples.table (Samples.identifier "patients" false)
       (PyExpr (Samples.identifier "mimiciv" false)) PyNone).

(** [SELECT GENERATE_ARRAY(DATETIME(a, 'UTC')) FROM mimiciv.patients]. *)
Definition nested_calls : Expression :=
  Samples.select_from
    [Samples.anonymous "GENERATE_ARRAY" [Samples.datetime_call]]
    (Samples.table (Samples.identifier "patients" false)
       (PyExpr (Samples.identifier "mimiciv" false)) PyNone).

(** A parser that knows one query, and makes a table without a name of it. *)
Definition parse_nameless (query dialect : string) : result Expression :=
  if String.eqb query "SELECT * FROM t" then Ok nameless_query
  else Raise (ParseError "Expecting )").

End SampleTrees.

(** ** Paths *)

(** A [pathlib] path on a POSIX system, held as the list of its parts; the
    first part of an absolute path is its root, the string of one slash. *)
Definition path : Type := list string.

Module PyPath.

(** [s.rfind(c)] for a character [c]: the last position of [c] in [s], if
    any (Python answers -1 when there is none). *)
Fixpoint rfind (s : string) (c : ascii) : option nat :=
  match s with
  | EmptyString => None
  | String a s' =>
      match rfind s' c with
      | Some i => Some (S i)
      | None => if Ascii.eqb a c then Some 0 else None
      end
  end.

Definition is_absolute (p : path) : bool :=
  match p with
  | root :: _ => String.eqb root "/"
  | [] => false
  end.

(** [p.name]: the last part, or the empty string when the path has no part
    besides its root. *)
Definition name (p : path) : string :=
  match p with
  | [root] => if String.eqb root "/" then "" else root
  | _ => last p ""
  end.

(** [p.stem], as [pathlib.PurePath] defines it: with [i = name.rfind('.')],
    the text [name[:i]] when [0 < i < len(name) - 1] and the name itself
    otherwise.  A dot at the front or at the end of the name starts no
    suffix. *)
Definition stem (p : path) : string :=
  let name := name p in
  match rfind name "." with
  | Some i =>
      if Nat.ltb 0 i && Nat.ltb i (String.length name - 1)
      then substring 0 i name
      else name
  | None => name
  end.

(** [p.parent]: the path without its last part; the root is its own parent. *)
Definition parent (p : path) : path :=
  match p with
  | [root] => if String.eqb root "/" then p else []
  | _ => removelast p
  end.

(** [p / q]: the parts of [q] after those of [p], or [q] alone when [q] is
    absolute. *)
Definition joinpath (p q : path) : path :=
  if is_absolute q then q else p ++ q.

Fixpoint strip_prefix (other self : path) : option path :=
  match other with
  | [] => Some self
  | a :: other' =>
      match self with
      | b :: self' => if String.eqb a b then strip_prefix other' self' else None
      | [] => None
      end
  end.

(** [self.relative_to(other)]: the parts of [self] after those of [other];
    a [ValueError] when [self] does not start with the parts of [other]. *)
Definition relative_to (self other : path) : result path :=
  match other with
  | [] => if is_absolute self then Raise ValueError else Ok self
  | _ :: _ =>
      match strip_prefix other self with
      | Some rest => Ok rest
      | None => Raise ValueError
      end
  end.

(** A path as the parser of [pathlib] makes it: the root stands at the front
    only. *)
Definition well_formed (p : path) : bool :=
  forallb (fun part => negb (String.eqb part "/")) (tl p).

End PyPath.

(** ** The drivers: [transpile_file] and [transpile_folder] (lines 59 to 87) *)

Definition newline : string := String (ascii_of_nat 10) EmptyString.

(** The text line 68 to 72 put in front of the transpiled query. *)
Definition create_statement (stem : string) : string :=
  ("-- THIS SCRIPT IS AUTOMATICALLY GENERATED. DO NOT EDIT IT DIRECTLY." ++ newline ++
   "DROP TABLE IF EXISTS " ++ stem ++ "; " ++
   "CREATE TABLE " ++ stem ++ " AS" ++ newline)%string.

(** The file the loop of [transpile_folder] writes for a file it found:
    [destination_folder / filename.relative_to(source_folder)], both folders
    resolved. *)
Definition destination_of (source_folder destination_folder filename : path)
  : result path :=
  rest <- PyPath.relative_to filename source_folder ;;
  Ok (PyPath.joinpath destination_folder rest).

(** What a driver raises: an exception of [transpile_query] or of the path
    arithmetic, or an [OSError] of the file system, held by the name of its
    class. *)
Inductive io_exn : Type :=
  | Py (x : exn)
  | OSError (class_name : string).

Inductive io_result (A : Type) : Type :=
  | IoOk (a : A)
  | IoRaise (x : io_exn)
  | IoOutOfFuel.

Arguments IoOk {A} a.
Arguments IoRaise {A} x.
Arguments IoOutOfFuel {A}.

Definition of_result {A : Type} (r : result A) : io_result A :=
  match r with
  | Ok a => IoOk a
  | Raise x => IoRaise (Py x)
  | OutOfFuel => IoOutOfFuel
  end.

Section Drivers.

(** The state of the file system, and what the operating system does on it.
    An operation returns or raises, and leaves a state in either case. *)
Variable world : Type.

Definition io (A : Type) : Type := world -> io_result A * world.

(** [open(file, "r")] and [read()]. *)
Variable read_text : path -> io string.

(** [open(file, "w")] and [write(text)]. *)
Variable write_text : path -> string -> io unit.

(** [directory.mkdir(parents=True, exist_ok=True)]. *)
Variable mkdir : path -> io unit.

(** [Path(folder).resolve()]: it reads the file system, for the working
    directory and the symbolic links. *)
Variable resolve : path -> io path.

Variable parse_one : string -> string -> result Expression.
Variable sql : Expression -> string -> bool -> result string.

Definition io_bind {A B : Type} (m : io A) (k : A -> io B) : io B :=
  fun w =>
    match m w with
    | (IoOk a, w1) => k a w1
    | (IoRaise x, w1) => (IoRaise x, w1)
    | (IoOutOfFuel, w1) => (IoOutOfFuel, w1)
    end.

(** A computation that does not touch the file system. *)
Definition pure {A : Type} (r : result A) : io A := fun w => (of_result r, w).

Definition transpile_file (source_file destination_file : path)
    (source_dialect destination_dialect : string) : io unit :=
  io_bind (read_text source_file) (fun sql_query =>
  io_bind (pure (transpile_query parse_one sql sql_query
                   source_dialect destination_dialect)) (fun transpiled_query =>
  let transpiled_query :=
    (create_statement (PyPath.stem source_file) ++ transpiled_query)%string in
  write_text destination_file transpiled_query)).

(** The body of the loop of [transpile_folder], for one file name. *)
Definition transpile_found (source_folder destination_folder : path)
    (source_dialect destination_dialect : string) (filename : path) : io unit :=
  let source_file := filename in
  io_bind (resolve destination_folder) (fun destination_folder =>
  io_bind (pure (destination_of source_folder destination_folder filename))
    (fun destination_file =>
  io_bind (mkdir (PyPath.parent destination_file)) (fun _ =>
  transpile_file source_file destination_file source_dialect destination_dialect))).

(** A loop over the file names a walk yields, in order; an exception of the
    body ends it. *)
Fixpoint for_each_file (body : path -> io unit) (found : list path) : io unit :=
  match found with
  | [] => pure (Ok tt)
  | filename :: found' => io_bind (body filename) (fun _ => for_each_file body found')
  end.

(** [transpile_folder], given the file names [source_folder.rglob("*.sql")]
    yields in the run, in the order it yields them.  The walk reads the file
    system and does not change it; an error of the walk itself is outside
    the model. *)
Definition transpile_folder (source_folder destination_folder : path)
    (source_dialect destination_dialect : string) (found : list path) : io unit :=
  io_bind (resolve source_folder) (fun source_folder =>
  for_each_file
    (transpile_found source_folder destination_folder source_dialect destination_dialect)
    found).

End Drivers.

Arguments io_bind {world A B} m k.
Arguments pure {world A} r.
Arguments transpile_file {world} read_text write_text parse_one sql.
Arguments transpile_found {world} read_text write_text mkdir resolve parse_one sql.
Arguments for_each_file {world} body found.
Arguments transpile_folder {world} read_text write_text mkdir resolve parse_one sql.

(** ** A sample file system *)

Module SampleFS.

(** The files, each under its path; no directories, no permissions. *)
Definition world : Type := list (path * string).

Definition path_eqb (p q : path) : bool :=
  if list_eq_dec string_dec p q then true else false.

Fixpoint lookup (p : path) (w : world) : option string :=
  match w with
  | [] => None
  | (q, text) :: w' => if path_eqb p q then Some text else lookup p w'
  end.

Definition read_text (p : path) (w : world) : io_result string * world :=
  match lookup p w with
  | Some text => (IoOk text, w)
  | None => (IoRaise (OSError "FileNotFoundError"), w)
  end.

Definition write_text (p : path) (text : string) (w : world) : io_result unit * world :=
  (IoOk tt, (p, text) :: w).

Definition mkdir (p : path) (w : world) : io_result unit * world := (IoOk tt, w).

Definition resolve (p : path) (w : world) : io_result path * world := (IoOk p, w).

Definition patients : string := "SELECT * FROM `physionet-data.mimiciv.patients`".

(** Two queries under [/src]: one the sample parser knows, one it rejects. *)
Definition files : world :=
  [(["/"; "src"; "demo"; "patients.sql"], patients);
   (["/"; "src"; "broken.sql"], "SELECT (1")].

End SampleFS.

(** * Properties *)

(** ** Results *)

Lemma mapM_ext_in {A B : Type} (f g : A -> result B) (l : list A) :
  (forall a, In a l -> f a = g a) -> mapM f l = mapM g l.
Proof.
  induction l as [|a l IH]; intros H; simpl; [reflexivity|].
  rewrite (H a) by (left; reflexivity).
  rewrite IH by (intros; apply H; right; assumption).
  reflexivity.
Qed.

Lemma mapM_not_out_of_fuel {A B : Type} (f : A -> result B) (l : list A) :
  (forall a, In a l -> f a <> OutOfFuel) -> mapM f l <> OutOfFuel.
Proof.
  induction l as [|a l IH]; intros H; simpl; [discriminate|].
  assert (Ha : f a <> OutOfFuel) by (apply H; left; reflexivity).
  assert (Hl : mapM f l <> OutOfFuel) by (apply IH; intros; apply H; right; assumption).
  destruct (f a); simpl; try congruence.
  destruct (mapM f l); simpl; congruence.
Qed.

Lemma mapM_id {A : Type} (f : A -> result A) (l : list A) :
  (forall a, In a l -> f a = Ok a) -> mapM f l = Ok l.
Proof.
  induction l as [|a l IH]; intros H; simpl; [reflexivity|].
  rewrite (H a) by (left; reflexivity); simpl.
  rewrite IH by (intros; apply H; right; assumption).
  reflexivity.
Qed.

(** ** Trees *)

Lemma in_children (e e' : Expression) :
  In e' (children e) <->
  exists kv, In kv (args_of e) /\ In e' (value_exprs (snd kv)).
Proof. unfold children. apply in_flat_map. Qed.

Lemma height_unfold (c : class) (args : dict) :
  height (Expr c args) = S (list_max (map height (children (Expr c args)))).
Proof.
  unfold children; simpl. f_equal.
  induction args as [|[k v] d IH]; simpl; [reflexivity|].
  rewrite map_app, list_max_app, <- IH. f_equal.
  destruct v; simpl; try reflexivity.
  - lia.
  - induction l as [|x l IHl]; simpl; [reflexivity|]. rewrite IHl. reflexivity.
Qed.

Lemma height_pos (e : Expression) : 1 <= height e.
Proof. destruct e; simpl; lia. Qed.

Lemma height_child (e e' : Expression) : In e' (children e) -> height e' < height e.
Proof.
  destruct e as [c args]. rewrite height_unfold. intros H.
  apply Nat.lt_succ_r.
  assert (Hmax := proj1 (list_max_le (map height (children (Expr c args))) _) (Nat.le_refl _)).
  rewrite Forall_forall in Hmax. apply Hmax, in_map, H.
Qed.

(** The height is one more than the greatest height of a child. *)
Lemma height_le (e : Expression) (n : nat) :
  (forall e', In e' (children e) -> height e' <= n) -> height e <= S n.
Proof.
  destruct e as [c args]. rewrite height_unfold. intros H.
  apply le_n_S, list_max_le, Forall_forall.
  intros k Hk. apply in_map_iff in Hk. destruct Hk as [e' [<- He']]. apply H, He'.
Qed.

(** ** Traversal: the bound on the depth is enough *)

Lemma args_mapM_ext_in (f g : Expression -> result Expression) (e : Expression) :
  (forall e', In e' (children e) -> f e' = g e') ->
  args_mapM f (args_of e) = args_mapM g (args_of e).
Proof.
  intros H. apply mapM_ext_in. intros kv Hkv.
  assert (Hv : forall e', In e' (value_exprs (snd kv)) -> f e' = g e').
  { intros e' He'. apply H, in_children. exists kv. split; assumption. }
  destruct (snd kv) as [| | |e'|l]; simpl in *; try reflexivity.
  - rewrite (Hv e') by (left; reflexivity). reflexivity.
  - rewrite (mapM_ext_in f g l) by assumption. reflexivity.
Qed.

Lemma args_mapM_not_out_of_fuel (f : Expression -> result Expression) (e : Expression) :
  (forall e', In e' (children e) -> f e' <> OutOfFuel) ->
  args_mapM f (args_of e) <> OutOfFuel.
Proof.
  intros H. apply mapM_not_out_of_fuel. intros kv Hkv.
  assert (Hv : forall e', In e' (value_exprs (snd kv)) -> f e' <> OutOfFuel).
  { intros e' He'. apply H, in_children. exists kv. split; assumption. }
  destruct (snd kv) as [| | |e'|l]; simpl in *; try discriminate.
  - specialize (Hv e' (or_introl eq_refl)). destruct (f e'); simpl; congruence.
  - assert (Hl := mapM_not_out_of_fuel f l Hv). destruct (mapM f l); simpl; congruence.
Qed.

Lemma args_mapM_id (f : Expression -> result Expression) (e : Expression) :
  (forall e', In e' (children e) -> f e' = Ok e') ->
  args_mapM f (args_of e) = Ok (args_of e).
Proof.
  intros H. apply mapM_id. intros kv Hkv.
  assert (Hv : forall e', In e' (value_exprs (snd kv)) -> f e' = Ok e').
  { intros e' He'. apply H, in_children. exists kv. split; assumption. }
  destruct kv as [k v]. simpl in *.
  destruct v as [| | |e'|l]; simpl in *; try reflexivity.
  - rewrite (Hv e') by (left; reflexivity). reflexivity.
  - rewrite (mapM_id f l) by assumption. reflexivity.
Qed.

Section Traversal.

Variable c : class.
Variable body : bool -> Expression -> result Expression.

(** The loop bodies of this file return or raise, and the node a body leaves
    is no higher than the node it was given. *)
Hypothesis body_returns : forall hp e, body hp e <> OutOfFuel.
Hypothesis body_height : forall hp e e1, body hp e = Ok e1 -> height e1 <= height e.

Lemma for_each_fuel_irrelevant (n m : nat) (hp : bool) (e : Expression) :
  height e <= n -> height e <= m ->
  for_each n c body hp e = for_each m c body hp e.
Proof.
  revert m hp e. induction n as [|n IH]; intros m hp e Hn Hm.
  - pose proof (height_pos e). lia.
  - destruct m as [|m]; [pose proof (height_pos e); lia|]. simpl.
    assert (Hvisit : forall e1,
               (if isinstance e c then body hp e else Ok e) = Ok e1 ->
               height e1 <= height e).
    { intros e1. destruct (isinstance e c).
      - apply body_height.
      - intros [= <-]. reflexivity. }
    destruct (if isinstance e c then body hp e else Ok e) as [e1| |];
      simpl; try reflexivity.
    specialize (Hvisit e1 eq_refl).
    rewrite (args_mapM_ext_in (for_each n c body true) (for_each m c body true) e1);
      [reflexivity|].
    intros e' He'. apply height_child in He'. apply IH; lia.
Qed.

Lemma for_each_returns (n : nat) (hp : bool) (e : Expression) :
  height e <= n -> for_each n c body hp e <> OutOfFuel.
Proof.
  revert hp e. induction n as [|n IH]; intros hp e Hn.
  - pose proof (height_pos e). lia.
  - simpl.
    assert (Hvisit : forall e1,
               (if isinstance e c then body hp e else Ok e) = Ok e1 ->
               height e1 <= height e).
    { intros e1. destruct (isinstance e c).
      - apply body_height.
      - intros [= <-]. reflexivity. }
    assert (Hret : (if isinstance e c then body hp e else Ok e) <> OutOfFuel).
    { destruct (isinstance e c); [apply body_returns|discriminate]. }
    destruct (if isinstance e c then body hp e else Ok e) as [e1| |];
      simpl; try congruence.
    specialize (Hvisit e1 eq_refl).
    assert (Hargs : args_mapM (for_each n c body true) (args_of e1) <> OutOfFuel).
    { apply args_mapM_not_out_of_fuel. intros e' He'.
      apply height_child in He'. apply IH. lia. }
    destruct (args_mapM (for_each n c body true) (args_of e1)); simpl; congruence.
Qed.

(** The loop, unfolded once: the body on the node, then the loop on the
    children of the node the body left. *)
Lemma run_unfold (hp : bool) (e : Expression) :
  run c body hp e =
  (e1 <- (if isinstance e c then body hp e else Ok e) ;;
   args1 <- args_mapM (run c body true) (args_of e1) ;;
   Ok (Expr (cls_of e1) args1)).
Proof.
  unfold run at 1. destruct (height e) as [|n] eqn:Hh.
  - pose proof (height_pos e). lia.
  - simpl.
    assert (Hvisit : forall e1,
               (if isinstance e c then body hp e else Ok e) = Ok e1 ->
               height e1 <= height e).
    { intros e1. destruct (isinstance e c).
      - apply body_height.
      - intros [= <-]. reflexivity. }
    destruct (if isinstance e c then body hp e else Ok e) as [e1| |];
      simpl; try reflexivity.
    specialize (Hvisit e1 eq_refl).
    rewrite (args_mapM_ext_in (for_each n c body true) (run c body true) e1);
      [reflexivity|].
    intros e' He'. apply height_child in He'.
    apply for_each_fuel_irrelevant; lia.
Qed.

Lemma run_returns (hp : bool) (e : Expression) : run c body hp e <> OutOfFuel.
Proof. apply for_each_returns. reflexivity. Qed.

End Traversal.

(** ** Strings *)





(** ** Dictionaries *)

Lemma dict_get_set_eq (k : string) (v : value Expression) (d : dict) :
  dict_get k (dict_set k v d) = v.
Proof.
  induction d as [|[k' v'] d IH]; simpl.
  - rewrite String.eqb_refl. reflexivity.
  - destruct (String.eqb k k') eqn:E; simpl; rewrite E; [reflexivity|assumption].
Qed.

Lemma dict_get_set_neq (k k' : string) (v : value Expression) (d : dict) :
  k <> k' -> dict_get k' (dict_set k v d) = dict_get k' d.
Proof.
  intros Hk. induction d as [|[k0 v0] d IH]; simpl.
  - destruct (String.eqb k' k) eqn:E; [apply String.eqb_eq in E; congruence|reflexivity].
  - destruct (String.eqb k k0) eqn:E; simpl.
    + apply String.eqb_eq in E. subst k0.
      destruct (String.eqb k' k) eqn:E'; [apply String.eqb_eq in E'; congruence|reflexivity].
    + rewrite IH. reflexivity.
Qed.

Lemma dict_set_set (k : string) (v1 v2 : value Expression) (d : dict) :
  dict_set k v2 (dict_set k v1 d) = dict_set k v2 d.
Proof.
  induction d as [|[k' v'] d IH]; simpl.
  - rewrite String.eqb_refl. reflexivity.
  - destruct (String.eqb k k') eqn:E; simpl; rewrite E; [reflexivity|].
    rewrite IH. reflexivity.
Qed.


Lemma dict_mem_set (k k' : string) (v : value Expression) (d : dict) :
  dict_mem k' (dict_set k v d) = String.eqb k' k || dict_mem k' d.
Proof.
  induction d as [|[k0 v0] d IH]; simpl.
  - reflexivity.
  - destruct (String.eqb k k0) eqn:E; simpl.
    + apply String.eqb_eq in E. subst k0.
      destruct (String.eqb k' k); reflexivity.
    + rewrite IH. destruct (String.eqb k' k0), (String.eqb k' k); reflexivity.
Qed.


Lemma dict_get_in_children (k : string) (e f : Expression) :
  dict_get k (args_of e) = PyExpr f -> In f (children e).
Proof.
  destruct e as [c d]. unfold children; simpl.
  induction d as [|[k' v'] d IH]; simpl; [discriminate|].
  intros H. apply in_app_iff.
  destruct (String.eqb k k').
  - subst v'. left. left. reflexivity.
  - right. apply IH, H.
Qed.

Lemma in_children_set (e e' : Expression) (k : string) (v : value Expression) :
  In e' (children (set_arg e k v)) -> In e' (value_exprs v) \/ In e' (children e).
Proof.
  destruct e as [c d]. unfold set_arg, children; simpl.
  induction d as [|[k' v'] d IH]; simpl.
  - rewrite app_nil_r. tauto.
  - destruct (String.eqb k k'); simpl; rewrite !in_app_iff; [tauto|].
    intros [H|H]; [tauto|]. destruct (IH H); tauto.
Qed.

(** ** The loop bodies *)

(** The second branch of the body, in one step: the two assignments of lines
    30 and 33 leave the table with a fresh unquoted identifier. *)
Lemma normalize_table_rewrite (table table_this : Expression) (this_name : string) :
  eq_str (catalog table) catalog_to_remove = false ->
  this table = PyExpr table_this ->
  name table_this = PyStr this_name ->
  PyStr.startswith this_name catalog_to_remove = true ->
  normalize_table table =
  Ok (set_arg table "this"
        (PyExpr (Expr Identifier
                   [("this", PyStr (PyStr.replace this_name (catalog_to_remove ++ ".") ""));
                    ("quoted", PyBool false)]))).
Proof.
  intros Hcat Hthis Hname Hstart. unfold normalize_table.
  rewrite Hcat, Hthis, Hname, Hstart.
  unfold set_arg. cbn [args_of cls_of]. rewrite dict_get_set_eq.
  cbn [to_identifier bind]. rewrite dict_set_set. reflexivity.
Qed.

Lemma normalize_table_keep (table table_this : Expression) (this_name : string) :
  eq_str (catalog table) catalog_to_remove = false ->
  this table = PyExpr table_this ->
  name table_this = PyStr this_name ->
  PyStr.startswith this_name catalog_to_remove = false ->
  normalize_table table = Ok table.
Proof.
  intros Hcat Hthis Hname Hstart. unfold normalize_table.
  rewrite Hcat, Hthis, Hname, Hstart. reflexivity.
Qed.

Lemma normalize_table_clear (table : Expression) :
  eq_str (catalog table) catalog_to_remove = true ->
  normalize_table table = Ok (set_arg table "catalog" PyNone).
Proof. intros Hcat. unfold normalize_table. rewrite Hcat. reflexivity. Qed.

(** The three ways the body returns, and the two ways it raises. *)
Lemma normalize_table_cases (table : Expression) :
  (eq_str (catalog table) catalog_to_remove = true /\
   normalize_table table = Ok (set_arg table "catalog" PyNone)) \/
  (eq_str (catalog table) catalog_to_remove = false /\
   exists table_this this_name,
     this table = PyExpr table_this /\ name table_this = PyStr this_name /\
     ((PyStr.startswith this_name catalog_to_remove = true /\
       normalize_table table =
       Ok (set_arg table "this"
             (PyExpr (Expr Identifier
                        [("this", PyStr (PyStr.replace this_name (catalog_to_remove ++ ".") ""));
                         ("quoted", PyBool false)])))) \/
      (PyStr.startswith this_name catalog_to_remove = false /\
       normalize_table table = Ok table))) \/
  (eq_str (catalog table) catalog_to_remove = false /\
   normalize_table table = Raise AttributeError).
Proof.
  destruct (eq_str (catalog table) catalog_to_remove) eqn:Hcat.
  - left. split; [reflexivity|]. apply normalize_table_clear, Hcat.
  - right.
    destruct (this table) as [| | |table_this|] eqn:Hthis;
      try (right; split; [reflexivity|];
           unfold normalize_table; rewrite Hcat, Hthis; reflexivity).
    destruct (name table_this) as [|this_name| | |] eqn:Hname;
      try (right; split; [reflexivity|];
           unfold normalize_table; rewrite Hcat, Hthis, Hname; reflexivity).
    left. split; [reflexivity|]. exists table_this, this_name.
    split; [reflexivity|]. split; [assumption|].
    destruct (PyStr.startswith this_name catalog_to_remove) eqn:Hstart.
    + left. split; [reflexivity|]. eapply normalize_table_rewrite; eassumption.
    + right. split; [reflexivity|]. eapply normalize_table_keep; eassumption.
Qed.

Lemma normalize_table_returns (table : Expression) : normalize_table table <> OutOfFuel.
Proof.
  destruct (normalize_table_cases table)
    as [[_ H]|[[_ (f & s & _ & _ & [[_ H]|[_ H]])]|[_ H]]]; rewrite H; discriminate.
Qed.

Lemma height_set_arg (e : Expression) (k : string) (v : value Expression) (n : nat) :
  height e <= S n ->
  (forall e', In e' (value_exprs v) -> height e' <= n) ->
  height (set_arg e k v) <= S n.
Proof.
  intros He Hv. apply height_le. intros e' He'.
  apply in_children_set in He'. destruct He' as [He'|He'].
  - apply Hv, He'.
  - apply height_child in He'. lia.
Qed.

Lemma normalize_table_height (table table1 : Expression) :
  normalize_table table = Ok table1 -> height table1 <= height table.
Proof.
  destruct (normalize_table_cases table)
    as [[_ H]|[[_ (f & s & Hthis & _ & [[_ H]|[_ H]])]|[_ H]]];
    rewrite H; intros [= <-].
  - pose proof (height_pos table). destruct (height table) as [|n] eqn:Hh; [lia|].
    apply height_set_arg; [lia|]. simpl. tauto.
  - apply dict_get_in_children, height_child in Hthis.
    pose proof (height_pos f).
    destruct (height table) as [|[|n]] eqn:Hh; try lia.
    apply height_set_arg; [lia|]. simpl. intros e' [<-|[]]. simpl. lia.
  - reflexivity.
Qed.

Lemma resolve_anonymous_cases (has_parent : bool) (e : Expression) :
  resolve_anonymous has_parent e = Ok e \/
  exists c, resolve_anonymous has_parent e = Ok (Expr c (args_of e)).
Proof.
  unfold resolve_anonymous, named_function, replace.
  destruct (eq_str (this e) "DATETIME"); [destruct has_parent; eauto|].
  destruct (eq_str (this e) "GENERATE_ARRAY"); [destruct has_parent; eauto|].
  left. reflexivity.
Qed.

Lemma resolve_anonymous_returns (has_parent : bool) (e : Expression) :
  resolve_anonymous has_parent e <> OutOfFuel.
Proof.
  destruct (resolve_anonymous_cases has_parent e) as [H|[c H]]; rewrite H; discriminate.
Qed.

Lemma resolve_anonymous_height (has_parent : bool) (e e1 : Expression) :
  resolve_anonymous has_parent e = Ok e1 -> height e1 <= height e.
Proof.
  destruct (resolve_anonymous_cases has_parent e) as [H|[c H]];
    rewrite H; intros [= <-]; [reflexivity|].
  destruct e; reflexivity.
Qed.

(** ** The passes, unfolded *)

Lemma for_each_body_ignores_parent (n : nat) (c : class)
    (body : Expression -> result Expression) (hp hp' : bool) (e : Expression) :
  for_each n c (fun _ => body) hp e = for_each n c (fun _ => body) hp' e.
Proof. destruct n; reflexivity. Qed.

Lemma catalog_normalizer_unfold (e : Expression) :
  catalog_normalizer e =
  (e1 <- (if isinstance e Table then normalize_table e else Ok e) ;;
   args1 <- args_mapM catalog_normalizer (args_of e1) ;;
   Ok (Expr (cls_of e1) args1)).
Proof.
  unfold catalog_normalizer at 1.
  rewrite run_unfold.
  - destruct (if isinstance e Table then normalize_table e else Ok e) as [e1| |];
      simpl; try reflexivity.
    rewrite (args_mapM_ext_in (run Table (fun _ => normalize_table) true)
               catalog_normalizer e1); [reflexivity|].
    intros e' _. apply for_each_body_ignores_parent.
  - intros _ e0 e2. apply normalize_table_height.
Qed.

Lemma catalog_normalizer_terminates (e : Expression) : catalog_normalizer e <> OutOfFuel.
Proof.
  apply run_returns.
  - intros _. apply normalize_table_returns.
  - intros _ e0 e2. apply normalize_table_height.
Qed.

Lemma catalog_normalizer_leaf (s : string) (quoted : bool) :
  catalog_normalizer (Expr Identifier [("this", PyStr s); ("quoted", PyBool quoted)]) =
  Ok (Expr Identifier [("this", PyStr s); ("quoted", PyBool quoted)]).
Proof. reflexivity. Qed.

Lemma function_resolver_unfold (e : Expression) :
  function_resolver "bigquery" e =
  (args1 <- args_mapM (run Anonymous resolve_anonymous true) (args_of e) ;;
   Ok (Expr (cls_of e) args1)).
Proof.
  unfold function_resolver. cbn [String.eqb Ascii.eqb Bool.eqb].
  rewrite run_unfold by apply resolve_anonymous_height.
  assert (H : (if isinstance e Anonymous then resolve_anonymous false e else Ok e) = Ok e).
  { destruct (isinstance e Anonymous); [|reflexivity].
    unfold resolve_anonymous, replace. destruct (named_function e); reflexivity. }
  rewrite H. reflexivity.
Qed.

Lemma resolve_below_unfold (e : Expression) :
  run Anonymous resolve_anonymous true e =
  (e1 <- (if isinstance e Anonymous then resolve_anonymous true e else Ok e) ;;
   args1 <- args_mapM (run Anonymous resolve_anonymous true) (args_of e1) ;;
   Ok (Expr (cls_of e1) args1)).
Proof. apply run_unfold, resolve_anonymous_height. Qed.

Lemma function_resolver_terminates (source_dialect : string) (e : Expression) :
  function_resolver source_dialect e <> OutOfFuel.
Proof.
  unfold function_resolver. destruct (String.eqb source_dialect "bigquery"); [|discriminate].
  apply run_returns; [apply resolve_anonymous_returns|apply resolve_anonymous_height].
Qed.

(** * The properties of the specification *)



(** The pass on a subtree whose children it leaves alone is the loop body on
    the root of the subtree. *)
Lemma catalog_normalizer_body (e e1 : Expression) :
  (if isinstance e Table then normalize_table e else Ok e) = Ok e1 ->
  (forall child, In child (children e1) -> catalog_normalizer child = Ok child) ->
  catalog_normalizer e = Ok e1.
Proof.
  intros Hbody Hchildren. rewrite catalog_normalizer_unfold, Hbody. cbn [bind].
  rewrite (args_mapM_id catalog_normalizer e1 Hchildren). destruct e1; reflexivity.
Qed.



(** C1, at the failing input: the name [physionet-data2.foo] does not start
    with the marker and a dot and the table has no catalog, yet the loop body
    takes its second branch (the guard of line 29 tests the marker without the
    dot) and replaces the quoted identifier by an unquoted one. *)
Theorem normalize_table_unquotes_near_miss :
  eq_str (catalog Samples.near_miss) catalog_to_remove = false /\
  PyStr.startswith "physionet-data2.foo" "physionet-data." = false /\
  normalize_table Samples.near_miss =
  Ok (Samples.table (Samples.identifier "physionet-data2.foo" false) PyNone PyNone) /\
  normalize_table Samples.near_miss <> Ok Samples.near_miss.
Proof. repeat split. discriminate. Qed.

(** What holds in place of C1: a table whose catalog is not the marker and
    whose name does not start with the marker (dot or no dot) is left as it
    is. *)
Lemma normalize_table_other_names (table table_this : Expression) (this_name : string) :
  eq_str (catalog table) catalog_to_remove = false ->
  this table = PyExpr table_this ->
  name table_this = PyStr this_name ->
  PyStr.startswith this_name catalog_to_remove = false ->
  normalize_table table = Ok table.
Proof. apply normalize_table_keep. Qed.





(** C10: the typed node that takes the place of a recognised call is built
    from the whole dictionary of the call: its [args] are the [args] of the
    call, so it holds the name of the callee under [this] next to the
    arguments. *)
Theorem named_function_args (anon_function named : Expression) :
  named_function anon_function = Some named ->
  resolve_anonymous true anon_function = Ok named /\
  args_of named = args_of anon_function /\
  ((cls_of named = DateTime /\ this named = PyStr "DATETIME") \/
   (cls_of named = GenerateArray /\ this named = PyStr "GENERATE_ARRAY")).
Proof.
  intros H. split; [unfold resolve_anonymous; rewrite H; reflexivity|].
  unfold named_function in H.
  destruct (eq_str (this anon_function) "DATETIME") eqn:E1.
  - injection H as <-. split; [reflexivity|]. left. split; [reflexivity|].
    unfold this in *. cbn [args_of].
    destruct (dict_get "this" (args_of anon_function)); try discriminate.
    apply String.eqb_eq in E1. congruence.
  - destruct (eq_str (this anon_function) "GENERATE_ARRAY") eqn:E2; [|discriminate].
    injection H as <-. split; [reflexivity|]. right. split; [reflexivity|].
    unfold this in *. cbn [args_of].
    destruct (dict_get "this" (args_of anon_function)); try discriminate.
    apply String.eqb_eq in E2. congruence.
Qed.

Lemma named_function_args_witness :
  resolve_anonymous true Samples.datetime_call =
  Ok (Expr DateTime (args_of Samples.datetime_call)) /\
  args_of (Expr DateTime (args_of Samples.datetime_call)) =
  args_of Samples.datetime_call /\
  ((cls_of (Expr DateTime (args_of Samples.datetime_call)) = DateTime /\
    this (Expr DateTime (args_of Samples.datetime_call)) = PyStr "DATETIME") \/
   (cls_of (Expr DateTime (args_of Samples.datetime_call)) = GenerateArray /\
    this (Expr DateTime (args_of Samples.datetime_call)) = PyStr "GENERATE_ARRAY")).
Proof.
  exact (@named_function_args Samples.datetime_call
           (Expr DateTime (args_of Samples.datetime_call)) eq_refl).
Defined.

(** C5: on an anonymous call whose callee is neither [DATETIME] nor
    [GENERATE_ARRAY], compared as strings and so with the case of the letters,
    the loop body builds no typed node and leaves the node as it is; in the
    pass the node keeps its class and its dictionary, the pass going on in its
    children only. *)
Theorem resolve_anonymous_other_name (has_parent : bool) (anon_function : Expression) :
  isinstance anon_function Anonymous = true ->
  eq_str (this anon_function) "DATETIME" = false ->
  eq_str (this anon_function) "GENERATE_ARRAY" = false ->
  named_function anon_function = None /\
  resolve_anonymous has_parent anon_function = Ok anon_function /\
  run Anonymous resolve_anonymous true anon_function =
  (args1 <- args_mapM (run Anonymous resolve_anonymous true) (args_of anon_function) ;;
   Ok (Expr (cls_of anon_function) args1)).
Proof.
  intros Hcls H1 H2.
  assert (Hnone : named_function anon_function = None).
  { unfold named_function. rewrite H1, H2. reflexivity. }
  assert (Hbody : forall hp, resolve_anonymous hp anon_function = Ok anon_function).
  { intros hp. unfold resolve_anonymous. rewrite Hnone. reflexivity. }
  repeat split; [assumption|apply Hbody|].
  rewrite resolve_below_unfold, Hcls, Hbody. reflexivity.
Qed.

Lemma resolve_anonymous_other_name_witness :
  named_function Samples.lower_case_call = None /\
  resolve_anonymous true Samples.lower_case_call = Ok Samples.lower_case_call /\
  run Anonymous resolve_anonymous true Samples.lower_case_call =
  (args1 <- args_mapM (run Anonymous resolve_anonymous true)
              (args_of Samples.lower_case_call) ;;
   Ok (Expr (cls_of Samples.lower_case_call) args1)).
Proof.
  exact (@resolve_anonymous_other_name true Samples.lower_case_call
           eq_refl eq_refl eq_refl).
Defined.

(** C6: with a source dialect other than [bigquery] the step of the function
    resolver returns the tree it was given: no node of it is replaced or
    edited. *)
Theorem function_resolver_other_dialect (source_dialect : string) (sql_parsed : Expression) :
  source_dialect <> "bigquery" ->
  function_resolver source_dialect sql_parsed = Ok sql_parsed.
Proof.
  intros H. unfold function_resolver.
  destruct (String.eqb source_dialect "bigquery") eqn:E; [|reflexivity].
  apply String.eqb_eq in E. contradiction.
Qed.

Lemma function_resolver_other_dialect_witness :
  function_resolver "postgres" (Samples.select_from [Samples.datetime_call] Samples.near_miss) =
  Ok (Samples.select_from [Samples.datetime_call] Samples.near_miss).
Proof.
  apply (@function_resolver_other_dialect "postgres"). discriminate.
Defined.

(** C7: when the parser raises on the query, [transpile_query] raises the
    same exception and returns no text, whatever the generator would do. *)
Theorem transpile_query_parse_error
    (parse_one : string -> string -> result Expression)
    (sql : Expression -> string -> bool -> result string)
    (query source_dialect destination_dialect : string) (e : exn) :
  parse_one query source_dialect = Raise e ->
  transpile_query parse_one sql query source_dialect destination_dialect = Raise e /\
  (forall out,
      transpile_query parse_one sql query source_dialect destination_dialect <> Ok out).
Proof.
  intros H. unfold transpile_query. rewrite H. split; [reflexivity|discriminate].
Qed.

Lemma transpile_query_parse_error_witness :
  transpile_query Samples.parse_one Samples.sql "SELECT (1" "bigquery" "postgres" =
  Raise (ParseError "Expecting )") /\
  (forall out,
      transpile_query Samples.parse_one Samples.sql "SELECT (1" "bigquery" "postgres"
      <> Ok out).
Proof.
  apply (@transpile_query_parse_error Samples.parse_one Samples.sql
           "SELECT (1" "bigquery" "postgres" (ParseError "Expecting )")).
  reflexivity.
Defined.

(** The first end-to-end scenario of the specification, on the sample engine. *)
Example transpile_query_scenario_1 :
  transpile_query Samples.parse_one Samples.sql
    "SELECT * FROM `physionet-data.mimiciv.patients`" "bigquery" "postgres" =
  Ok "SELECT * FROM mimiciv.patients".
Proof. reflexivity. Qed.

(** In the pass a recognised call that has a parent becomes the typed node
    with the dictionary of the call, and the pass goes on in its children. *)
Lemma resolve_below_recognised (anon_function named : Expression) :
  isinstance anon_function Anonymous = true ->
  named_function anon_function = Some named ->
  run Anonymous resolve_anonymous true anon_function =
  (args1 <- args_mapM (run Anonymous resolve_anonymous true) (args_of anon_function) ;;
   Ok (Expr (cls_of named) args1)).
Proof.
  intros Hcls Hnamed. rewrite resolve_below_unfold, Hcls.
  unfold resolve_anonymous, replace. rewrite Hnamed. cbn [bind].
  unfold named_function in Hnamed.
  destruct (eq_str (this anon_function) "DATETIME").
  - injection Hnamed as <-. reflexivity.
  - destruct (eq_str (this anon_function) "GENERATE_ARRAY"); [|discriminate].
    injection Hnamed as <-. reflexivity.
Qed.

Example function_resolver_below_root :
  function_resolver "bigquery"
    (Samples.select_from [Samples.datetime_call] Samples.near_miss) =
  Ok (Samples.select_from
        [Expr DateTime (args_of Samples.datetime_call)] Samples.near_miss).
Proof. reflexivity. Qed.

(** C3, at the failing input: the statement [DATETIME(a, 'UTC')] parses to a
    tree whose root is the anonymous call.  The loop body builds the typed
    node, [replace] finds no parent to put it in, and the tree that goes on to
    the generator still has the anonymous call at its root. *)
Theorem function_resolver_keeps_root_call :
  named_function Samples.datetime_call =
  Some (Expr DateTime (args_of Samples.datetime_call)) /\
  function_resolver "bigquery" Samples.datetime_call = Ok Samples.datetime_call.
Proof. split; reflexivity. Qed.

(** ** Walks of the normaliser: what they keep *)

Lemma all_nodes_unfold (p : Expression -> bool) (e : Expression) :
  all_nodes p e = p e && forallb (all_nodes p) (children e).
Proof.
  destruct e as [c args]. unfold children. cbn [all_nodes args_of]. f_equal.
  induction args as [|[k v] d IH]; [reflexivity|].
  cbn [flat_map snd]. rewrite forallb_app, <- IH. f_equal.
  destruct v as [| | |e'|l]; cbn [value_exprs forallb]; try reflexivity.
  rewrite andb_true_r. reflexivity.
Qed.

Lemma all_nodes_head (p : Expression -> bool) (e : Expression) :
  all_nodes p e = true -> p e = true.
Proof. rewrite all_nodes_unfold. intros H. apply andb_prop in H. tauto. Qed.

Lemma all_nodes_child (p : Expression -> bool) (e e' : Expression) :
  all_nodes p e = true -> In e' (children e) -> all_nodes p e' = true.
Proof.
  rewrite all_nodes_unfold. intros H. apply andb_prop in H. destruct H as [_ H].
  rewrite forallb_forall in H. apply H.
Qed.

Lemma same_str_eq_str (v v1 : value Expression) (m : string) :
  same_str v v1 -> eq_str v1 m = eq_str v m.
Proof.
  intros H. destruct v1 as [|s1| | |].
  2:{ rewrite (proj2 (H s1) eq_refl). reflexivity. }
  all: destruct v as [|s| | |]; try reflexivity;
    discriminate (proj1 (H s) eq_refl).
Qed.

Lemma value_mapM_same_str (f : Expression -> result Expression) (v v1 : value Expression) :
  value_mapM f v = Ok v1 -> same_str v v1.
Proof.
  intros H s. destruct v as [|s0| |e|l]; simpl in H.
  - injection H as <-. tauto.
  - injection H as <-. tauto.
  - injection H as <-. tauto.
  - destruct (f e); simpl in H; try discriminate. injection H as <-.
    split; discriminate.
  - destruct (mapM f l); simpl in H; try discriminate. injection H as <-.
    split; discriminate.
Qed.

Lemma args_mapM_get (f : Expression -> result Expression) (d d1 : dict) (k : string) :
  args_mapM f d = Ok d1 -> value_mapM f (dict_get k d) = Ok (dict_get k d1).
Proof.
  revert d1. unfold args_mapM.
  induction d as [|[k' v] d IH]; intros d1 H; simpl in H.
  - injection H as <-. reflexivity.
  - destruct (value_mapM f v) as [v1| |] eqn:Hv; simpl in H; try discriminate.
    destruct (mapM _ d) as [d1'| |]; simpl in H; try discriminate.
    injection H as <-. simpl.
    destruct (String.eqb k k'); [assumption|]. apply IH. reflexivity.
Qed.

Lemma class_eqb_eq (a b : class) : class_eqb a b = true -> a = b.
Proof.
  destruct a, b; simpl; try discriminate; try reflexivity.
  intros H. apply String.eqb_eq in H. congruence.
Qed.

(** What a pass returns, read off [catalog_normalizer_unfold]. *)
Lemma catalog_normalizer_inv (e t1 : Expression) :
  catalog_normalizer e = Ok t1 ->
  exists e1 args1,
    (if isinstance e Table then normalize_table e else Ok e) = Ok e1 /\
    args_mapM catalog_normalizer (args_of e1) = Ok args1 /\
    t1 = Expr (cls_of e1) args1.
Proof.
  rewrite catalog_normalizer_unfold. intros H.
  destruct (if isinstance e Table then normalize_table e else Ok e) as [e1| |];
    simpl in H; try discriminate.
  destruct (args_mapM catalog_normalizer (args_of e1)) as [args1| |] eqn:Hargs;
    simpl in H; try discriminate.
  injection H as <-. exists e1, args1. repeat split. assumption.
Qed.

Lemma normalize_table_cls (table table1 : Expression) :
  normalize_table table = Ok table1 -> cls_of table1 = cls_of table.
Proof.
  destruct (normalize_table_cases table)
    as [[_ H]|[[_ (f & s & _ & _ & [[_ H]|[_ H]])]|[_ H]]];
    rewrite H; intros [= <-]; reflexivity.
Qed.

Lemma catalog_normalizer_cls (e t1 : Expression) :
  catalog_normalizer e = Ok t1 -> cls_of t1 = cls_of e.
Proof.
  intros H. apply catalog_normalizer_inv in H.
  destruct H as (e1 & args1 & Hvisit & _ & ->). cbn [cls_of].
  destruct (isinstance e Table).
  - apply normalize_table_cls, Hvisit.
  - injection Hvisit as <-. reflexivity.
Qed.

(** The pass does not change what [text] reads in a node once the loop body
    has run on the node: a string stays the string it was, and what is not a
    string does not become one. *)
Lemma text_after_walk (e1 : Expression) (args1 : dict) (key : string) :
  args_mapM catalog_normalizer (args_of e1) = Ok args1 ->
  same_str (text e1 key) (text (Expr (cls_of e1) args1) key).
Proof.
  intros Hargs. pose proof (args_mapM_get _ _ _ key Hargs) as Hkey.
  unfold text. cbn [args_of].
  destruct (dict_get key (args_of e1)) as [|s0|b|g|l]; simpl in Hkey.
  - injection Hkey as <-. intros s. tauto.
  - injection Hkey as <-. intros s. tauto.
  - injection Hkey as <-. intros s. tauto.
  - destruct (catalog_normalizer g) as [g1| |] eqn:Hg; simpl in Hkey; try discriminate.
    injection Hkey as <-.
    unfold isinstance. rewrite (catalog_normalizer_cls _ _ Hg).
    destruct (class_eqb (cls_of g) Identifier || class_eqb (cls_of g) Literal
              || class_eqb (cls_of g) Var) eqn:Hlike; [|intros s; tauto].
    assert (Hnot : isinstance g Table = false).
    { unfold isinstance.
      apply orb_prop in Hlike. destruct Hlike as [Hlike|Hlike];
        [apply orb_prop in Hlike; destruct Hlike as [Hlike|Hlike]|];
        apply class_eqb_eq in Hlike; rewrite Hlike; reflexivity. }
    apply catalog_normalizer_inv in Hg.
    destruct Hg as (g' & argsg & Hvisit & Hwalk & ->).
    rewrite Hnot in Hvisit. injection Hvisit as <-.
    unfold this. cbn [args_of].
    eapply value_mapM_same_str, args_mapM_get, Hwalk.
  - destruct (mapM catalog_normalizer l); simpl in Hkey; try discriminate.
    injection Hkey as <-. intros s. tauto.
Qed.

(** The children of a table once the loop body has run on it: children the
    table had, or the fresh identifier. *)
Lemma normalize_table_children (table table1 e' : Expression) :
  normalize_table table = Ok table1 ->
  In e' (children table1) ->
  In e' (children table) \/
  exists s, e' = Expr Identifier [("this", PyStr s); ("quoted", PyBool false)].
Proof.
  destruct (normalize_table_cases table)
    as [[_ H]|[[_ (f & s & _ & _ & [[_ H]|[_ H]])]|[_ H]]];
    rewrite H; intros [= <-] He'.
  - apply in_children_set in He'. destruct He' as [[]|He']. left. assumption.
  - apply in_children_set in He'. destruct He' as [[<-|[]]|He'].
    + right. eexists. reflexivity.
    + left. assumption.
  - left. assumption.
Qed.

(** * Properties of the passes on whole trees *)

(** ** Walks over lists and dictionaries *)

Lemma mapM_raise {A B : Type} (f : A -> result B) (l : list A) (x : exn) :
  mapM f l = Raise x -> exists a, In a l /\ f a = Raise x.
Proof.
  induction l as [|a l IH]; simpl; [discriminate|].
  destruct (f a) as [b|y|] eqn:Ha; simpl; try discriminate.
  - destruct (mapM f l) as [bs|y|]; simpl; try discriminate.
    intros [= ->]. destruct (IH eq_refl) as (a' & Hin & Ha').
    exists a'. split; [right; assumption|assumption].
  - intros [= ->]. exists a. split; [left; reflexivity|assumption].
Qed.

Lemma mapM_ok {A B : Type} (f : A -> result B) (l : list A) :
  (forall a, In a l -> exists b, f a = Ok b) -> exists l', mapM f l = Ok l'.
Proof.
  induction l as [|a l IH]; intros H; simpl; [eexists; reflexivity|].
  destruct (H a (or_introl eq_refl)) as [b ->].
  destruct IH as [bs ->]; [intros; apply H; right; assumption|].
  eexists. reflexivity.
Qed.

Lemma mapM_Forall2 {A B : Type} (f : A -> result B) (l : list A) (l' : list B) :
  mapM f l = Ok l' -> Forall2 (fun a b => f a = Ok b) l l'.
Proof.
  revert l'. induction l as [|a l IH]; intros l' H; simpl in H.
  - injection H as <-. constructor.
  - destruct (f a) as [b| |] eqn:Ha; simpl in H; try discriminate.
    destruct (mapM f l) as [bs| |]; simpl in H; try discriminate.
    injection H as <-. constructor; [assumption|apply IH; reflexivity].
Qed.

Lemma args_mapM_raise (f : Expression -> result Expression) (e : Expression) (x : exn) :
  args_mapM f (args_of e) = Raise x ->
  exists e', In e' (children e) /\ f e' = Raise x.
Proof.
  intros H. apply mapM_raise in H. destruct H as ([k v] & Hin & Hv).
  simpl in Hv.
  assert (Hex : exists e', In e' (value_exprs v) /\ f e' = Raise x).
  { destruct v as [| | |e'|l]; simpl in Hv; try discriminate.
    - destruct (f e') eqn:He'; simpl in Hv; try discriminate.
      injection Hv as ->. exists e'. split; [left; reflexivity|assumption].
    - destruct (mapM f l) eqn:Hl; simpl in Hv; try discriminate.
      injection Hv as ->. apply mapM_raise in Hl. assumption. }
  destruct Hex as (e' & He' & Hf). exists e'. split; [|assumption].
  apply in_children. exists (k, v). split; assumption.
Qed.

Lemma args_mapM_ok (f : Expression -> result Expression) (e : Expression) :
  (forall e', In e' (children e) -> exists e1, f e' = Ok e1) ->
  exists d1, args_mapM f (args_of e) = Ok d1.
Proof.
  intros H. apply mapM_ok. intros [k v] Hkv. simpl.
  assert (Hv : forall e', In e' (value_exprs v) -> exists e1, f e' = Ok e1).
  { intros e' He'. apply H, in_children. exists (k, v). split; assumption. }
  destruct v as [| | |e'|l]; simpl in *; try (eexists; reflexivity).
  - destruct (Hv e' (or_introl eq_refl)) as [e1 ->]. eexists. reflexivity.
  - destruct (mapM_ok f l Hv) as [l' ->]. eexists. reflexivity.
Qed.

(** The children of a walked node are the walked children, one for one. *)
Lemma args_mapM_children (f : Expression -> result Expression)
    (e : Expression) (c1 : class) (d1 : dict) :
  args_mapM f (args_of e) = Ok d1 ->
  Forall2 (fun a b => f a = Ok b) (children e) (children (Expr c1 d1)).
Proof.
  destruct e as [c d]. unfold children, args_mapM. cbn [args_of].
  revert d1. induction d as [|[k v] d IH]; intros d1 H; simpl in H.
  - injection H as <-. constructor.
  - destruct (value_mapM f v) as [v1| |] eqn:Hv; simpl in H; try discriminate.
    destruct (mapM _ d) as [d1'| |] eqn:Hd; simpl in H; try discriminate.
    injection H as <-. cbn [flat_map snd]. apply Forall2_app; [|apply IH; reflexivity].
    destruct v as [| | |e'|l]; simpl in Hv.
    + injection Hv as <-. constructor.
    + injection Hv as <-. constructor.
    + injection Hv as <-. constructor.
    + destruct (f e') eqn:He'; simpl in Hv; try discriminate.
      injection Hv as <-. constructor; [assumption|constructor].
    + destruct (mapM f l) eqn:Hl; simpl in Hv; try discriminate.
      injection Hv as <-. apply mapM_Forall2. assumption.
Qed.

Lemma Forall2_in_r {A B : Type} (R : A -> B -> Prop) (l : list A) (l' : list B) (b : B) :
  Forall2 R l l' -> In b l' -> exists a, In a l /\ R a b.
Proof.
  induction 1 as [|a b' l l' HR _ IH]; simpl; [tauto|].
  intros [<-|Hin].
  - exists a. split; [left; reflexivity|assumption].
  - destruct (IH Hin) as (a' & Ha' & HR'). exists a'. split; [right; assumption|assumption].
Qed.

Lemma all_nodes_intro (p : Expression -> bool) (e : Expression) :
  p e = true ->
  (forall e', In e' (children e) -> all_nodes p e' = true) ->
  all_nodes p e = true.
Proof.
  intros Hp Hc. rewrite all_nodes_unfold, Hp. apply forallb_forall, Hc.
Qed.

(** ** The catalog normaliser on whole trees *)

(** A child of a node on which the loop body has run is a child the node had
    or the fresh identifier, on which the pass has nothing to do. *)
Lemma visit_table_children (e e1 child : Expression) :
  (if isinstance e Table then normalize_table e else Ok e) = Ok e1 ->
  In child (children e1) ->
  In child (children e) \/
  exists s, child = Expr Identifier [("this", PyStr s); ("quoted", PyBool false)].
Proof.
  destruct (isinstance e Table).
  - apply normalize_table_children.
  - intros [= <-] H. left. assumption.
Qed.

Lemma normalize_table_catalog (table table1 : Expression) :
  normalize_table table = Ok table1 ->
  eq_str (catalog table1) catalog_to_remove = false.
Proof.
  destruct (normalize_table_cases table)
    as [[Hcat H]|[[Hcat (f & s & _ & _ & [[_ H]|[_ H]])]|[_ H]]];
    rewrite H; intros [= <-].
  - unfold catalog, text, set_arg. cbn [args_of]. rewrite dict_get_set_eq. reflexivity.
  - unfold catalog, text, set_arg in *. cbn [args_of].
    rewrite dict_get_set_neq by discriminate. assumption.
  - assumption.
Qed.

Lemma normalize_table_raises (table : Expression) (x : exn) :
  normalize_table table = Raise x -> x = AttributeError.
Proof.
  destruct (normalize_table_cases table)
    as [[_ H]|[[_ (f & s & _ & _ & [[_ H]|[_ H]])]|[_ H]]];
    rewrite H; congruence.
Qed.

Lemma normalize_table_named (table : Expression) :
  isinstance table Table = true ->
  named_table table = true ->
  exists table1, normalize_table table = Ok table1.
Proof.
  intros Htable Hnamed. unfold named_table, table_name in Hnamed.
  rewrite Htable in Hnamed. simpl in Hnamed.
  destruct (normalize_table_cases table)
    as [[_ H]|[[_ (f & s & _ & _ & [[_ H]|[_ H]])]|[Hcat H]]];
    try (eexists; eassumption).
  rewrite Hcat in Hnamed. simpl in Hnamed.
  destruct (this table) as [| | |f|] eqn:Hthis; try discriminate.
  destruct (name f) as [|s| | |] eqn:Hname; try discriminate.
  destruct (PyStr.startswith s catalog_to_remove) eqn:Hstart.
  - rewrite (normalize_table_rewrite table f s Hcat Hthis Hname Hstart) in H.
    discriminate.
  - rewrite (normalize_table_keep table f s Hcat Hthis Hname Hstart) in H.
    discriminate.
Qed.

Lemma catalog_normalizer_no_marker (tree tree1 : Expression) :
  catalog_normalizer tree = Ok tree1 ->
  all_nodes (fun e => negb (has_marker_catalog e)) tree1 = true.
Proof.
  revert tree1. induction tree as [c args IH] using Expression_children_ind.
  intros tree1 Hpass. rewrite Forall_forall in IH.
  apply catalog_normalizer_inv in Hpass.
  destruct Hpass as (e1 & args1 & Hvisit & Hwalk & ->).
  apply all_nodes_intro.
  - unfold has_marker_catalog.
    destruct (isinstance (Expr (cls_of e1) args1) Table) eqn:Htable1; [|reflexivity].
    simpl. apply negb_true_iff.
    unfold catalog. rewrite (same_str_eq_str (text e1 "catalog"));
      [|apply text_after_walk, Hwalk].
    destruct (isinstance (Expr c args) Table) eqn:Htable.
    + apply (normalize_table_catalog _ _ Hvisit).
    + injection Hvisit as <-. unfold isinstance in *. cbn [cls_of] in *. congruence.
  - intros child1 Hin.
    destruct (Forall2_in_r _ _ _ _
                (args_mapM_children catalog_normalizer e1 (cls_of e1) args1 Hwalk) Hin)
      as (child & Hchild & Hpass).
    destruct (visit_table_children _ _ _ Hvisit Hchild) as [Hold|[s ->]].
    + apply (IH child Hold), Hpass.
    + rewrite catalog_normalizer_leaf in Hpass. injection Hpass as <-. reflexivity.
Qed.

(** X1: in the tree the pass returns, no table has the marker as catalog. *)
Theorem catalog_normalizer_removes_catalog (tree tree1 : Expression) :
  catalog_normalizer tree = Ok tree1 ->
  all_nodes (fun e => negb (has_marker_catalog e)) tree1 = true.
Proof. apply catalog_normalizer_no_marker. Qed.

Lemma catalog_normalizer_removes_catalog_witness :
  exists tree1,
    catalog_normalizer SampleTrees.marked_query = Ok tree1 /\
    all_nodes (fun e => negb (has_marker_catalog e)) tree1 = true.
Proof.
  eexists. split; [reflexivity|].
  apply (catalog_normalizer_removes_catalog SampleTrees.marked_query). reflexivity.
Defined.

Lemma catalog_normalizer_raise_inv (tree : Expression) (x : exn) :
  catalog_normalizer tree = Raise x -> x = AttributeError.
Proof.
  induction tree as [c args IH] using Expression_children_ind.
  rewrite Forall_forall in IH. rewrite catalog_normalizer_unfold.
  destruct (if isinstance (Expr c args) Table then normalize_table (Expr c args)
            else Ok (Expr c args)) as [e1|y|] eqn:Hvisit; simpl.
  - destruct (args_mapM catalog_normalizer (args_of e1)) as [args1|y|] eqn:Hwalk;
      simpl; try discriminate.
    intros [= ->]. apply args_mapM_raise in Hwalk.
    destruct Hwalk as (child & Hchild & Hraise).
    destruct (visit_table_children _ _ _ Hvisit Hchild) as [Hold|[s ->]].
    + apply (IH child Hold), Hraise.
    + rewrite catalog_normalizer_leaf in Hraise. discriminate.
  - intros [= ->]. destruct (isinstance (Expr c args) Table); [|discriminate].
    apply (normalize_table_raises _ _ Hvisit).
  - discriminate.
Qed.

(** X2: on every tree the pass returns a tree or raises [AttributeError]:
    it raises no other exception, and the walk comes to an end. *)
Theorem catalog_normalizer_raises (tree : Expression) :
  (exists tree1, catalog_normalizer tree = Ok tree1) \/
  catalog_normalizer tree = Raise AttributeError.
Proof.
  destruct (catalog_normalizer tree) as [tree1|x|] eqn:Hpass.
  - left. exists tree1. reflexivity.
  - right. rewrite (catalog_normalizer_raise_inv tree x Hpass). reflexivity.
  - destruct (catalog_normalizer_terminates tree Hpass).
Qed.

(** X3: the pass returns a tree when every table of the tree has the marker
    as catalog or a name the loop body can read. *)
Theorem catalog_normalizer_returns (tree : Expression) :
  all_nodes named_table tree = true ->
  exists tree1, catalog_normalizer tree = Ok tree1.
Proof.
  induction tree as [c args IH] using Expression_children_ind.
  intros Hall. rewrite Forall_forall in IH. rewrite catalog_normalizer_unfold.
  assert (Hvisit : exists e1,
             (if isinstance (Expr c args) Table then normalize_table (Expr c args)
              else Ok (Expr c args)) = Ok e1).
  { destruct (isinstance (Expr c args) Table) eqn:Htable; [|eexists; reflexivity].
    apply normalize_table_named; [assumption|]. apply (all_nodes_head _ _ Hall). }
  destruct Hvisit as [e1 Hvisit]. rewrite Hvisit. cbn [bind].
  destruct (args_mapM_ok catalog_normalizer e1) as [args1 ->]; [|eexists; reflexivity].
  intros child Hchild.
  destruct (visit_table_children _ _ _ Hvisit Hchild) as [Hold|[s ->]].
  - apply (IH child Hold). apply (all_nodes_child _ _ _ Hall Hold).
  - eexists. apply catalog_normalizer_leaf.
Qed.

Lemma catalog_normalizer_returns_witness :
  exists tree1, catalog_normalizer SampleTrees.marked_query = Ok tree1.
Proof.
  apply (catalog_normalizer_returns SampleTrees.marked_query). reflexivity.
Defined.

Lemma clean_table_keep (e : Expression) :
  clean_table e = true ->
  (if isinstance e Table then normalize_table e else Ok e) = Ok e.
Proof.
  unfold clean_table, table_name. destruct (isinstance e Table); [|reflexivity].
  simpl. intros H. apply andb_prop in H. destruct H as [Hcat H].
  apply negb_true_iff in Hcat.
  destruct (this e) as [| | |f|] eqn:Hthis; try discriminate.
  destruct (name f) as [|s| | |] eqn:Hname; try discriminate.
  apply negb_true_iff in H. apply (normalize_table_keep e f s); assumption.
Qed.

(** X4: the pass returns the tree it was given when no table of the tree has
    the marker as catalog or a name that starts with the marker. *)
Theorem catalog_normalizer_clean (tree : Expression) :
  all_nodes clean_table tree = true -> catalog_normalizer tree = Ok tree.
Proof.
  induction tree as [c args IH] using Expression_children_ind.
  intros Hall. rewrite Forall_forall in IH.
  apply catalog_normalizer_body.
  - apply clean_table_keep, (all_nodes_head _ _ Hall).
  - intros child Hchild. apply (IH child Hchild), (all_nodes_child _ _ _ Hall Hchild).
Qed.

Lemma catalog_normalizer_clean_witness :
  catalog_normalizer SampleTrees.clean_query = Ok SampleTrees.clean_query.
Proof.
  apply (catalog_normalizer_clean SampleTrees.clean_query). reflexivity.
Defined.

(** ** A second pass of the normaliser *)












(** What the first pass returns is at rest for a name with the marker and a
    dot once, and for a name that only starts like the marker; it is not for
    the two trees on which a second pass goes on. *)
Example at_rest_after_one_pass :
  (exists tree1,
      catalog_normalizer
        (Samples.select_from [Samples.star]
           (Samples.table (Samples.identifier "physionet-data.mimiciv.patients" true)
              PyNone PyNone)) = Ok tree1 /\
      all_nodes at_rest tree1 = true) /\
  (exists tree1,
      catalog_normalizer (Samples.select_from [Samples.star] Samples.near_miss) =
      Ok tree1 /\
      all_nodes at_rest tree1 = true) /\
  (exists tree1,
      catalog_normalizer (Samples.select_from [Samples.star] Samples.marker_in_both) =
      Ok tree1 /\
      all_nodes at_rest tree1 = false) /\
  (exists tree1,
      catalog_normalizer Samples.spliced = Ok tree1 /\
      all_nodes at_rest tree1 = false).
Proof. repeat split; eexists; split; reflexivity. Qed.

(** ** The function resolver on whole trees *)

(** The loop body on a node with a parent: the node itself, or the typed node
    with the dictionary of the node when the node is a recognised call. *)
Lemma resolve_visit (e : Expression) :
  (if isinstance e Anonymous then resolve_anonymous true e else Ok e) =
  Ok (if recognised e
      then Expr (if eq_str (this e) "DATETIME" then DateTime else GenerateArray)
             (args_of e)
      else e).
Proof.
  unfold recognised, resolve_anonymous, named_function, replace.
  destruct (isinstance e Anonymous); simpl; [|reflexivity].
  destruct (eq_str (this e) "DATETIME"); simpl; [reflexivity|].
  destruct (eq_str (this e) "GENERATE_ARRAY"); reflexivity.
Qed.

Lemma resolve_below_inv (e e1 : Expression) :
  run Anonymous resolve_anonymous true e = Ok e1 ->
  exists args1,
    args_mapM (run Anonymous resolve_anonymous true) (args_of e) = Ok args1 /\
    e1 = Expr (if recognised e
               then (if eq_str (this e) "DATETIME" then DateTime else GenerateArray)
               else cls_of e) args1.
Proof.
  rewrite resolve_below_unfold, resolve_visit. cbn [bind].
  destruct (recognised e); cbn [args_of cls_of]; intros H.
  - destruct (args_mapM _ (args_of e)) as [args1| |]; simpl in H; try discriminate.
    injection H as <-. eexists. split; reflexivity.
  - destruct (args_mapM _ (args_of e)) as [args1| |]; simpl in H; try discriminate.
    injection H as <-. eexists. split; reflexivity.
Qed.

Lemma resolve_below_returns (e : Expression) :
  exists e1, run Anonymous resolve_anonymous true e = Ok e1.
Proof.
  induction e as [c args IH] using Expression_children_ind.
  rewrite Forall_forall in IH.
  rewrite resolve_below_unfold, resolve_visit. cbn [bind].
  assert (Hargs : exists args1,
             args_mapM (run Anonymous resolve_anonymous true) args = Ok args1).
  { apply (args_mapM_ok _ (Expr c args)). assumption. }
  destruct Hargs as [args1 Hargs].
  destruct (recognised (Expr c args)); cbn [args_of cls_of]; rewrite Hargs;
    eexists; reflexivity.
Qed.

Lemma function_resolver_ok (source_dialect : string) (sql_parsed : Expression) :
  exists tree1, function_resolver source_dialect sql_parsed = Ok tree1.
Proof.
  destruct (String.eqb source_dialect "bigquery") eqn:E.
  - apply String.eqb_eq in E. subst source_dialect.
    rewrite function_resolver_unfold.
    destruct (args_mapM_ok (run Anonymous resolve_anonymous true) sql_parsed)
      as [args1 ->]; [|eexists; reflexivity].
    intros child _. apply resolve_below_returns.
  - unfold function_resolver. rewrite E. eexists. reflexivity.
Qed.

(** X5: the step of the function resolver never raises: it returns a tree for
    every tree and every source dialect. *)
Theorem function_resolver_returns (source_dialect : string) (sql_parsed : Expression) :
  exists tree1, function_resolver source_dialect sql_parsed = Ok tree1.
Proof. apply function_resolver_ok. Qed.

(** The callee a node holds is not changed by a walk over its children. *)
Lemma this_after_walk (f : Expression -> result Expression)
    (e : Expression) (c1 : class) (args1 : dict) (s : string) :
  args_mapM f (args_of e) = Ok args1 ->
  eq_str (this (Expr c1 args1)) s = eq_str (this e) s.
Proof.
  intros H. apply same_str_eq_str. unfold this. cbn [args_of].
  eapply value_mapM_same_str, args_mapM_get, H.
Qed.

Lemma resolve_below_unrecognised (e e1 : Expression) :
  run Anonymous resolve_anonymous true e = Ok e1 ->
  all_nodes (fun n => negb (recognised n)) e1 = true.
Proof.
  revert e1. induction e as [c args IH] using Expression_children_ind.
  intros e1 Hrun. rewrite Forall_forall in IH.
  apply resolve_below_inv in Hrun. destruct Hrun as (args1 & Hargs & ->).
  apply all_nodes_intro.
  - destruct (recognised (Expr c args)) eqn:Hrec.
    + unfold recognised, isinstance. cbn [cls_of].
      destruct (eq_str (this (Expr c args)) "DATETIME"); reflexivity.
    + unfold recognised in *. unfold isinstance in *. cbn [cls_of] in *.
      rewrite !(this_after_walk _ (Expr c args) c args1 _ Hargs).
      rewrite Hrec. reflexivity.
  - intros child1 Hin.
    destruct (Forall2_in_r _ _ _ _
                (args_mapM_children _ (Expr c args) _ args1 Hargs) Hin)
      as (child & Hchild & Hchild1).
    apply (IH child Hchild), Hchild1.
Qed.

(** X6: on a tree whose root is not a recognised call, the step leaves no
    recognised call anywhere in the tree, at any depth and however the calls
    are nested. *)
Theorem function_resolver_resolves_every_call (sql_parsed tree1 : Expression) :
  recognised sql_parsed = false ->
  function_resolver "bigquery" sql_parsed = Ok tree1 ->
  all_nodes (fun n => negb (recognised n)) tree1 = true.
Proof.
  intros Hroot. rewrite function_resolver_unfold. intros H.
  destruct (args_mapM _ (args_of sql_parsed)) as [args1| |] eqn:Hargs;
    simpl in H; try discriminate.
  injection H as <-. apply all_nodes_intro.
  - unfold recognised in *. unfold isinstance in *. cbn [cls_of] in *.
    rewrite !(this_after_walk _ sql_parsed _ args1 _ Hargs).
    rewrite Hroot. reflexivity.
  - intros child1 Hin.
    destruct (Forall2_in_r _ _ _ _
                (args_mapM_children _ sql_parsed _ args1 Hargs) Hin)
      as (child & _ & Hchild1).
    apply (resolve_below_unrecognised _ _ Hchild1).
Qed.

Lemma function_resolver_resolves_every_call_witness :
  exists tree1,
    function_resolver "bigquery" SampleTrees.nested_calls = Ok tree1 /\
    all_nodes (fun n => negb (recognised n)) tree1 = true.
Proof.
  eexists. split; [reflexivity|].
  apply (function_resolver_resolves_every_call SampleTrees.nested_calls);
    reflexivity.
Defined.

Lemma resolve_below_fixed (e : Expression) :
  all_nodes (fun n => negb (recognised n)) e = true ->
  run Anonymous resolve_anonymous true e = Ok e.
Proof.
  induction e as [c args IH] using Expression_children_ind.
  intros Hall. rewrite Forall_forall in IH.
  rewrite resolve_below_unfold, resolve_visit.
  pose proof (all_nodes_head _ _ Hall) as Hhead. apply negb_true_iff in Hhead.
  rewrite Hhead. cbn [bind args_of cls_of].
  rewrite (args_mapM_id _ (Expr c args)); [reflexivity|].
  intros child Hchild. apply (IH child Hchild), (all_nodes_child _ _ _ Hall Hchild).
Qed.

(** X7: the step is idempotent: run on the tree it returned, it returns that
    tree again. *)
Theorem function_resolver_idempotent
    (source_dialect : string) (sql_parsed tree1 : Expression) :
  function_resolver source_dialect sql_parsed = Ok tree1 ->
  function_resolver source_dialect tree1 = Ok tree1.
Proof.
  destruct (String.eqb source_dialect "bigquery") eqn:E.
  - apply String.eqb_eq in E. subst source_dialect. intros H.
    rewrite function_resolver_unfold in H.
    destruct (args_mapM _ (args_of sql_parsed)) as [args1| |] eqn:Hargs;
      simpl in H; try discriminate.
    injection H as <-. rewrite function_resolver_unfold.
    rewrite (args_mapM_id _ (Expr (cls_of sql_parsed) args1)); [reflexivity|].
    intros child1 Hin.
    destruct (Forall2_in_r _ _ _ _
                (args_mapM_children _ sql_parsed _ args1 Hargs) Hin)
      as (child & _ & Hchild1).
    apply resolve_below_fixed, (resolve_below_unrecognised _ _ Hchild1).
  - unfold function_resolver. rewrite E. intros [= <-]. reflexivity.
Qed.

Lemma function_resolver_idempotent_witness :
  exists tree1,
    function_resolver "bigquery" SampleTrees.nested_calls = Ok tree1 /\
    function_resolver "bigquery" tree1 = Ok tree1.
Proof.
  eexists. split; [reflexivity|].
  apply (function_resolver_idempotent "bigquery" SampleTrees.nested_calls). reflexivity.
Defined.

Lemma args_mapM_inverse (f : Expression -> result Expression)
    (g : Expression -> Expression) (e : Expression) (d1 : dict) :
  (forall child child1,
      In child (children e) -> f child = Ok child1 -> g child1 = child) ->
  args_mapM f (args_of e) = Ok d1 ->
  map (fun kv => (fst kv, value_map g (snd kv))) d1 = args_of e.
Proof.
  destruct e as [c d]. unfold children, args_mapM. cbn [args_of].
  revert d1. induction d as [|[k v] d IH]; intros d1 Hg H; simpl in H.
  - injection H as <-. reflexivity.
  - destruct (value_mapM f v) as [v1| |] eqn:Hv; simpl in H; try discriminate.
    destruct (mapM _ d) as [d1'| |] eqn:Hd; simpl in H; try discriminate.
    injection H as <-. cbn [map fst snd].
    rewrite (IH d1'); [|intros child child1 Hin; apply Hg; cbn [flat_map snd];
                         apply in_app_iff; tauto|reflexivity].
    f_equal. f_equal.
    assert (Hgv : forall child child1,
               In child (value_exprs v) -> f child = Ok child1 -> g child1 = child).
    { intros child child1 Hin. apply Hg. cbn [flat_map snd]. apply in_app_iff. tauto. }
    destruct v as [| | |e'|l]; simpl in Hv.
    + injection Hv as <-. reflexivity.
    + injection Hv as <-. reflexivity.
    + injection Hv as <-. reflexivity.
    + destruct (f e') as [e1'| |] eqn:He'; simpl in Hv; try discriminate.
      injection Hv as <-. simpl. rewrite (Hgv e' e1' (or_introl eq_refl) He').
      reflexivity.
    + destruct (mapM f l) as [l1| |] eqn:Hl; simpl in Hv; try discriminate.
      injection Hv as <-. simpl. f_equal.
      apply mapM_Forall2 in Hl. clear - Hl Hgv.
      induction Hl as [|a b l l1 Hab _ IHl]; [reflexivity|].
      simpl. rewrite (Hgv a b (or_introl eq_refl) Hab).
      rewrite IHl by (intros; eapply Hgv; [right|]; eassumption). reflexivity.
Qed.

Lemma resolve_below_unresolve (e e1 : Expression) :
  all_nodes (fun n => negb (typed n)) e = true ->
  run Anonymous resolve_anonymous true e = Ok e1 ->
  unresolve e1 = e.
Proof.
  revert e1. induction e as [c args IH] using Expression_children_ind.
  intros e1 Hall Hrun. rewrite Forall_forall in IH.
  apply resolve_below_inv in Hrun. destruct Hrun as (args1 & Hargs & ->).
  cbn [unresolve].
  rewrite (args_mapM_inverse (run Anonymous resolve_anonymous true) unresolve
             (Expr c args) args1);
    [|intros child child1 Hin; apply (IH child Hin), (all_nodes_child _ _ _ Hall Hin)
     |assumption].
  cbn [args_of]. f_equal.
  destruct (recognised (Expr c args)) eqn:Hrec.
  - unfold recognised, isinstance in Hrec. apply andb_prop in Hrec.
    destruct Hrec as [Hc _]. apply class_eqb_eq in Hc. cbn [cls_of] in Hc. subst c.
    destruct (eq_str (this (Expr Anonymous args)) "DATETIME"); reflexivity.
  - pose proof (all_nodes_head _ _ Hall) as Hhead. apply negb_true_iff in Hhead.
    unfold typed, isinstance in Hhead. cbn [cls_of] in *.
    destruct c; try reflexivity; discriminate.
Qed.

Lemma unresolve_untyped (e : Expression) :
  all_nodes (fun n => negb (typed n)) e = true -> unresolve e = e.
Proof.
  induction e as [c args IH] using Expression_children_ind.
  intros Hall. rewrite Forall_forall in IH. cbn [unresolve].
  pose proof (all_nodes_head _ _ Hall) as Hhead. apply negb_true_iff in Hhead.
  f_equal.
  { unfold typed, isinstance in Hhead. cbn [cls_of] in Hhead.
    destruct c; try reflexivity; discriminate. }
  apply (args_mapM_inverse (fun x => Ok x) unresolve (Expr c args) args).
  - intros child child1 Hin [= <-].
    apply (IH child Hin), (all_nodes_child _ _ _ Hall Hin).
  - apply (args_mapM_id (fun x => Ok x) (Expr c args)). reflexivity.
Qed.

(** X8: the step loses nothing.  On a tree without typed nodes, turning the
    typed nodes of the tree it returns back into anonymous calls gives the
    tree it was given: keys, strings, flags, arguments and their order are
    the same, and a class changes from the anonymous call to a typed class
    only. *)
Theorem function_resolver_unresolve
    (source_dialect : string) (sql_parsed tree1 : Expression) :
  all_nodes (fun n => negb (typed n)) sql_parsed = true ->
  function_resolver source_dialect sql_parsed = Ok tree1 ->
  unresolve tree1 = sql_parsed.
Proof.
  intros Hall. destruct (String.eqb source_dialect "bigquery") eqn:E.
  - apply String.eqb_eq in E. subst source_dialect.
    rewrite function_resolver_unfold. intros H.
    destruct (args_mapM _ (args_of sql_parsed)) as [args1| |] eqn:Hargs;
      simpl in H; try discriminate.
    injection H as <-. cbn [unresolve].
    rewrite (args_mapM_inverse (run Anonymous resolve_anonymous true) unresolve
               sql_parsed args1);
      [|intros child child1 Hin;
        apply resolve_below_unresolve, (all_nodes_child _ _ _ Hall Hin)
       |assumption].
    pose proof (all_nodes_head _ _ Hall) as Hhead. apply negb_true_iff in Hhead.
    destruct sql_parsed as [c args]. cbn [args_of cls_of]. f_equal.
    unfold typed, isinstance in Hhead. cbn [cls_of] in Hhead.
    destruct c; try reflexivity; discriminate.
  - unfold function_resolver. rewrite E. intros [= <-].
    apply unresolve_untyped, Hall.
Qed.

Lemma function_resolver_unresolve_witness :
  exists tree1,
    function_resolver "bigquery" SampleTrees.nested_calls = Ok tree1 /\
    unresolve tree1 = SampleTrees.nested_calls.
Proof.
  eexists. split; [reflexivity|].
  apply (function_resolver_unresolve "bigquery" SampleTrees.nested_calls);
    reflexivity.
Defined.

(** ** The two passes together *)




(** ** The orchestrator *)

(** X9: what [transpile_query] raises is what the parser raised on the query,
    or the [AttributeError] of the loop over the tables on the tree parsed, or
    what the generator raised on the tree the two passes made. *)
Theorem transpile_query_raises
    (parse_one : string -> string -> result Expression)
    (sql : Expression -> string -> bool -> result string)
    (query source_dialect destination_dialect : string) (x : exn) :
  transpile_query parse_one sql query source_dialect destination_dialect = Raise x ->
  parse_one query source_dialect = Raise x \/
  (exists sql_parsed,
      parse_one query source_dialect = Ok sql_parsed /\
      catalog_normalizer sql_parsed = Raise AttributeError /\
      x = AttributeError) \/
  (exists sql_parsed tree1 tree2,
      parse_one query source_dialect = Ok sql_parsed /\
      catalog_normalizer sql_parsed = Ok tree1 /\
      function_resolver source_dialect tree1 = Ok tree2 /\
      sql tree2 destination_dialect true = Raise x).
Proof.
  unfold transpile_query.
  destruct (parse_one query source_dialect) as [sql_parsed|y|] eqn:Hparse; simpl.
  - destruct (catalog_normalizer sql_parsed) as [tree1|y|] eqn:Hnorm; simpl.
    + destruct (function_resolver_ok source_dialect tree1) as [tree2 Hres].
      rewrite Hres. simpl. intros Hsql. right. right.
      exists sql_parsed, tree1, tree2. repeat split; assumption.
    + intros [= ->]. right. left. exists sql_parsed.
      pose proof (catalog_normalizer_raise_inv _ _ Hnorm) as ->.
      repeat split. assumption.
    + discriminate.
  - intros [= ->]. left. reflexivity.
  - discriminate.
Qed.

Lemma transpile_query_raises_witness :
  SampleTrees.parse_nameless "SELECT * FROM t" "bigquery" = Raise AttributeError \/
  (exists sql_parsed,
      SampleTrees.parse_nameless "SELECT * FROM t" "bigquery" = Ok sql_parsed /\
      catalog_normalizer sql_parsed = Raise AttributeError /\
      AttributeError = AttributeError) \/
  (exists sql_parsed tree1 tree2,
      SampleTrees.parse_nameless "SELECT * FROM t" "bigquery" = Ok sql_parsed /\
      catalog_normalizer sql_parsed = Ok tree1 /\
      function_resolver "bigquery" tree1 = Ok tree2 /\
      Samples.sql tree2 "postgres" true = Raise AttributeError).
Proof.
  apply (transpile_query_raises SampleTrees.parse_nameless Samples.sql
           "SELECT * FROM t" "bigquery" "postgres" AttributeError).
  reflexivity.
Defined.



(** * The drivers *)

(** ** Paths *)

Lemma rfind_app (a b : string) (c : ascii) :
  PyPath.rfind b c = None ->
  PyPath.rfind (a ++ String c b) c = Some (String.length a).
Proof.
  intros Hb. induction a as [|x a IH]; simpl.
  - rewrite Hb, Ascii.eqb_refl. reflexivity.
  - rewrite IH. reflexivity.
Qed.

Lemma substring_app (a b : string) : substring 0 (String.length a) (a ++ b) = a.
Proof.
  induction a as [|x a IH]; simpl; [destruct b; reflexivity|].
  rewrite IH. reflexivity.
Qed.

Lemma length_append (a b : string) :
  String.length (a ++ b) = String.length a + String.length b.
Proof. induction a as [|x a IH]; simpl; [reflexivity|]. rewrite IH. reflexivity. Qed.

(** The stem of a name with a suffix: what stands before the last dot. *)
Lemma stem_suffix (p : path) (t ext : string) :
  PyPath.name p = (t ++ String "." ext)%string ->
  t <> "" -> ext <> "" -> PyPath.rfind ext "." = None ->
  PyPath.stem p = t.
Proof.
  intros Hname Ht Hext Hdot. unfold PyPath.stem. rewrite Hname.
  rewrite (rfind_app t ext "." Hdot), length_append. cbn [String.length].
  assert (H1 : Nat.ltb 0 (String.length t) = true).
  { apply Nat.ltb_lt. destruct t; [congruence|simpl; lia]. }
  assert (H2 : Nat.ltb (String.length t)
                 (String.length t + S (String.length ext) - 1) = true).
  { apply Nat.ltb_lt. destruct ext; [congruence|simpl; lia]. }
  rewrite H1, H2. apply substring_app.
Qed.

Lemma strip_prefix_app (other self rest : path) :
  PyPath.strip_prefix other self = Some rest -> self = other ++ rest.
Proof.
  revert self. induction other as [|a other IH]; intros self H; simpl in H.
  - injection H as ->. reflexivity.
  - destruct self as [|b self]; [discriminate|].
    destruct (String.eqb a b) eqn:E; [|discriminate].
    apply String.eqb_eq in E. subst b. simpl. f_equal. apply IH, H.
Qed.

Lemma strip_prefix_same (other rest : path) :
  PyPath.strip_prefix other (other ++ rest) = Some rest.
Proof.
  induction other as [|a other IH]; simpl; [reflexivity|].
  rewrite String.eqb_refl. assumption.
Qed.

(** The parts of a well-formed path after a folder do not start at the root. *)
Lemma rest_is_relative (folder rest : path) :
  folder <> [] -> PyPath.well_formed (folder ++ rest) = true ->
  forallb (fun part => negb (String.eqb part "/")) rest = true.
Proof.
  intros Hfolder Hwf. unfold PyPath.well_formed in Hwf.
  destruct folder as [|a folder]; [congruence|]. simpl in Hwf.
  rewrite forallb_app in Hwf. apply andb_prop in Hwf. tauto.
Qed.

Lemma relative_is_not_absolute (rest : path) :
  forallb (fun part => negb (String.eqb part "/")) rest = true ->
  PyPath.is_absolute rest = false.
Proof.
  destruct rest as [|a rest]; simpl; [reflexivity|].
  intros H. apply andb_prop in H. destruct H as [H _].
  apply negb_true_iff in H. assumption.
Qed.

Lemma destination_of_inv (source_folder destination_folder filename d : path) :
  source_folder <> [] ->
  PyPath.well_formed filename = true ->
  destination_of source_folder destination_folder filename = Ok d ->
  exists rest,
    filename = source_folder ++ rest /\ d = destination_folder ++ rest /\
    forallb (fun part => negb (String.eqb part "/")) rest = true.
Proof.
  intros Hsrc Hwf. unfold destination_of, PyPath.relative_to.
  destruct source_folder as [|a src]; [congruence|].
  destruct (PyPath.strip_prefix (a :: src) filename) as [rest|] eqn:Hstrip;
    simpl; [|discriminate].
  apply strip_prefix_app in Hstrip. subst filename.
  pose proof (rest_is_relative (a :: src) rest Hsrc Hwf) as Hrest.
  unfold PyPath.joinpath. rewrite (relative_is_not_absolute rest Hrest).
  intros [= <-]. exists rest. repeat split. assumption.
Qed.

Lemma last_app_nonempty {A : Type} (l rest : list A) (d : A) :
  rest <> [] -> last (l ++ rest) d = last rest d.
Proof.
  intros Hrest. induction l as [|a l IH]; [reflexivity|].
  simpl. destruct (l ++ rest) as [|b l'] eqn:E; [|assumption].
  apply app_eq_nil in E. destruct E. congruence.
Qed.

Lemma name_app (p rest : path) :
  rest <> [] ->
  forallb (fun part => negb (String.eqb part "/")) rest = true ->
  PyPath.name (p ++ rest) = last rest "".
Proof.
  intros Hrest Hrel. unfold PyPath.name.
  destruct p as [|a p].
  - simpl. destruct rest as [|x [|y rest]]; [congruence| |reflexivity].
    simpl in Hrel. apply andb_prop in Hrel. destruct Hrel as [Hx _].
    apply negb_true_iff in Hx. rewrite Hx. reflexivity.
  - assert (Hl : last ((a :: p) ++ rest) "" = last rest "")
      by (apply last_app_nonempty; assumption).
    simpl in *. destruct (p ++ rest) as [|b l] eqn:E; [|exact Hl].
    apply app_eq_nil in E. destruct E. congruence.
Qed.

(** X11: the file written for a file found under the source folder stands in
    the destination folder under the same relative path, and has the same
    name and stem as the file found. *)
Theorem destination_of_mirrors (source_folder destination_folder filename d : path) :
  source_folder <> [] ->
  PyPath.well_formed filename = true ->
  destination_of source_folder destination_folder filename = Ok d ->
  exists rest,
    filename = source_folder ++ rest /\
    d = destination_folder ++ rest /\
    PyPath.relative_to d destination_folder = Ok rest /\
    (rest <> [] ->
     PyPath.name d = PyPath.name filename /\ PyPath.stem d = PyPath.stem filename).
Proof.
  intros Hsrc Hwf Hd.
  destruct (destination_of_inv _ _ _ _ Hsrc Hwf Hd) as (rest & -> & -> & Hrel).
  exists rest. split; [reflexivity|]. split; [reflexivity|]. split.
  - unfold PyPath.relative_to. destruct destination_folder as [|a dst].
    + simpl. rewrite (relative_is_not_absolute rest Hrel). reflexivity.
    + rewrite strip_prefix_same. reflexivity.
  - intros Hrest.
    assert (Hname : PyPath.name (destination_folder ++ rest) =
                    PyPath.name (source_folder ++ rest)).
    { rewrite !name_app by assumption. reflexivity. }
    split; [assumption|]. unfold PyPath.stem. rewrite Hname. reflexivity.
Qed.

Lemma destination_of_mirrors_witness :
  exists rest,
    ["/"; "src"; "demo"; "patients.sql"] = ["/"; "src"] ++ rest /\
    ["/"; "out"; "demo"; "patients.sql"] = ["/"; "out"] ++ rest /\
    PyPath.relative_to ["/"; "out"; "demo"; "patients.sql"] ["/"; "out"] = Ok rest /\
    (rest <> [] ->
     PyPath.name ["/"; "out"; "demo"; "patients.sql"] =
     PyPath.name ["/"; "src"; "demo"; "patients.sql"] /\
     PyPath.stem ["/"; "out"; "demo"; "patients.sql"] =
     PyPath.stem ["/"; "src"; "demo"; "patients.sql"]).
Proof.
  apply (destination_of_mirrors ["/"; "src"] ["/"; "out"]
           ["/"; "src"; "demo"; "patients.sql"] ["/"; "out"; "demo"; "patients.sql"]).
  - discriminate.
  - reflexivity.
  - reflexivity.
Defined.

(** X12: for one resolved source folder and one resolved destination folder,
    the destination file tells the file found: two file names under the
    source folder that get the same destination file are the same name. *)
Theorem destination_of_injective
    (source_folder destination_folder filename1 filename2 d : path) :
  source_folder <> [] ->
  PyPath.well_formed filename1 = true ->
  PyPath.well_formed filename2 = true ->
  destination_of source_folder destination_folder filename1 = Ok d ->
  destination_of source_folder destination_folder filename2 = Ok d ->
  filename1 = filename2.
Proof.
  intros Hsrc Hwf1 Hwf2 H1 H2.
  destruct (destination_of_inv _ _ _ _ Hsrc Hwf1 H1) as (rest1 & -> & -> & _).
  destruct (destination_of_inv _ _ _ _ Hsrc Hwf2 H2) as (rest2 & -> & E & _).
  apply app_inv_head in E. congruence.
Qed.

Lemma destination_of_injective_witness :
  ["/"; "src"; "a.sql"] = ["/"; "src"; "a.sql"].
Proof.
  apply (destination_of_injective ["/"; "src"] ["/"; "out"]
           ["/"; "src"; "a.sql"] ["/"; "src"; "a.sql"] ["/"; "out"; "a.sql"]).
  - discriminate.
  - reflexivity.
  - reflexivity.
  - reflexivity.
  - reflexivity.
Defined.

Lemma append_assoc (s1 s2 s3 : string) :
  ((s1 ++ s2) ++ s3 = s1 ++ (s2 ++ s3))%string.
Proof.
  induction s1 as [|c s1 IH]; simpl; [reflexivity|]. rewrite IH. reflexivity.
Qed.

Section Driver_properties.

Variable world : Type.
Variable read_text : path -> io world string.
Variable write_text : path -> string -> io world unit.
Variable mkdir : path -> io world unit.
Variable resolve : path -> io world path.
Variable parse_one : string -> string -> result Expression.
Variable sql : Expression -> string -> bool -> result string.

(** X14: for a source file named [t.ext], with [t] not empty and [ext] not
    empty and without a dot, a run of [transpile_file] in which the file is
    read and the query transpiled ends with one write: the destination file
    gets the generated comment, the statements that drop and create the
    table [t], and the transpiled query. *)
Theorem transpile_file_writes
    (source_file destination_file : path) (source_dialect destination_dialect : string)
    (t ext sql_query transpiled_query : string) (w w1 : world) :
  PyPath.name source_file = (t ++ String "." ext)%string ->
  t <> "" -> ext <> "" -> PyPath.rfind ext "." = None ->
  read_text source_file w = (IoOk sql_query, w1) ->
  transpile_query parse_one sql sql_query source_dialect destination_dialect =
  Ok transpiled_query ->
  transpile_file read_text write_text parse_one sql
    source_file destination_file source_dialect destination_dialect w =
  write_text destination_file
    ("-- THIS SCRIPT IS AUTOMATICALLY GENERATED. DO NOT EDIT IT DIRECTLY." ++ newline ++
     "DROP TABLE IF EXISTS " ++ t ++ "; CREATE TABLE " ++ t ++ " AS" ++ newline ++
     transpiled_query)%string w1.
Proof.
  intros Hname Ht Hext Hdot Hread Hquery.
  unfold transpile_file, io_bind, pure. rewrite Hread, Hquery. cbn [of_result].
  rewrite (stem_suffix source_file t ext Hname Ht Hext Hdot).
  unfold create_statement. f_equal.
  rewrite !append_assoc. reflexivity.
Qed.

(** X15: when [transpile_file] raises, the exception is that of the read, or
    that of [transpile_query] on the text read, or that of the write; in the
    first two cases nothing was written: the file system is as the read left
    it. *)
Theorem transpile_file_raises
    (source_file destination_file : path) (source_dialect destination_dialect : string)
    (x : io_exn) (w w' : world) :
  transpile_file read_text write_text parse_one sql
    source_file destination_file source_dialect destination_dialect w =
  (IoRaise x, w') ->
  read_text source_file w = (IoRaise x, w') \/
  (exists sql_query y,
      read_text source_file w = (IoOk sql_query, w') /\
      transpile_query parse_one sql sql_query source_dialect destination_dialect =
      Raise y /\ x = Py y) \/
  (exists sql_query w1 transpiled_query,
      read_text source_file w = (IoOk sql_query, w1) /\
      transpile_query parse_one sql sql_query source_dialect destination_dialect =
      Ok transpiled_query /\
      write_text destination_file
        (create_statement (PyPath.stem source_file) ++ transpiled_query)%string w1 =
      (IoRaise x, w')).
Proof.
  unfold transpile_file, io_bind, pure.
  destruct (read_text source_file w) as [[sql_query|y|] w1] eqn:Hread.
  - destruct (transpile_query parse_one sql sql_query source_dialect destination_dialect)
      as [transpiled_query|y|] eqn:Hquery; cbn [of_result].
    + intros Hwrite. right. right. exists sql_query, w1, transpiled_query.
      repeat split; assumption.
    + intros [= <- <-]. right. left. exists sql_query, y. repeat split. assumption.
    + discriminate.
  - intros [= <- <-]. left. reflexivity.
  - discriminate.
Qed.

Lemma for_each_file_app (body : path -> io world unit) (found1 found2 : list path)
    (w : world) :
  for_each_file body (found1 ++ found2) w =
  io_bind (for_each_file body found1) (fun _ => for_each_file body found2) w.
Proof.
  revert w. induction found1 as [|f found1 IH]; intros w.
  - reflexivity.
  - cbn [app for_each_file]. unfold io_bind in IH |- *.
    destruct (body f w) as [[[]|x|] w1]; try reflexivity.
    apply IH.
Qed.

(** X16: [transpile_folder] stops at the first file that fails.  When the
    files found before it went through and the loop body raises on it, the
    folder run raises that exception and leaves the file system as the
    failing body left it: the files found after it are neither read nor
    written, whatever they are. *)
Theorem transpile_folder_stops
    (source_folder destination_folder resolved : path)
    (source_dialect destination_dialect : string)
    (before after : list path) (filename : path) (x : io_exn) (w w0 w1 w2 : world) :
  resolve source_folder w = (IoOk resolved, w0) ->
  for_each_file
    (transpile_found read_text write_text mkdir resolve parse_one sql
       resolved destination_folder source_dialect destination_dialect)
    before w0 = (IoOk tt, w1) ->
  transpile_found read_text write_text mkdir resolve parse_one sql
    resolved destination_folder source_dialect destination_dialect
    filename w1 = (IoRaise x, w2) ->
  transpile_folder read_text write_text mkdir resolve parse_one sql
    source_folder destination_folder source_dialect destination_dialect
    (before ++ filename :: after) w = (IoRaise x, w2).
Proof.
  intros Hresolve Hbefore Hfile.
  unfold transpile_folder. unfold io_bind at 1. rewrite Hresolve.
  rewrite for_each_file_app. unfold io_bind at 1. rewrite Hbefore.
  cbn [for_each_file]. unfold io_bind at 1. rewrite Hfile. reflexivity.
Qed.

End Driver_properties.

(** ** The drivers on the sample file system *)

Lemma transpile_file_writes_witness :
  transpile_file SampleFS.read_text SampleFS.write_text Samples.parse_one Samples.sql
    ["/"; "src"; "demo"; "patients.sql"] ["/"; "out"; "demo"; "patients.sql"]
    "bigquery" "postgres" SampleFS.files =
  SampleFS.write_text ["/"; "out"; "demo"; "patients.sql"]
    ("-- THIS SCRIPT IS AUTOMATICALLY GENERATED. DO NOT EDIT IT DIRECTLY." ++ newline ++
     "DROP TABLE IF EXISTS patients; CREATE TABLE patients AS" ++ newline ++
     "SELECT * FROM mimiciv.patients")%string SampleFS.files.
Proof.
  apply (transpile_file_writes SampleFS.world SampleFS.read_text SampleFS.write_text
           Samples.parse_one Samples.sql
           ["/"; "src"; "demo"; "patients.sql"] ["/"; "out"; "demo"; "patients.sql"]
           "bigquery" "postgres" "patients" "sql" SampleFS.patients
           "SELECT * FROM mimiciv.patients" SampleFS.files SampleFS.files).
  - reflexivity.
  - discriminate.
  - discriminate.
  - reflexivity.
  - reflexivity.
  - reflexivity.
Defined.

Lemma transpile_file_raises_witness :
  SampleFS.read_text ["/"; "src"; "broken.sql"] SampleFS.files =
  (IoRaise (Py (ParseError "Expecting )")), SampleFS.files) \/
  (exists sql_query y,
      SampleFS.read_text ["/"; "src"; "broken.sql"] SampleFS.files =
      (IoOk sql_query, SampleFS.files) /\
      transpile_query Samples.parse_one Samples.sql sql_query "bigquery" "postgres" =
      Raise y /\ Py (ParseError "Expecting )") = Py y) \/
  (exists sql_query w1 transpiled_query,
      SampleFS.read_text ["/"; "src"; "broken.sql"] SampleFS.files =
      (IoOk sql_query, w1) /\
      transpile_query Samples.parse_one Samples.sql sql_query "bigquery" "postgres" =
      Ok transpiled_query /\
      SampleFS.write_text ["/"; "out"; "broken.sql"]
        (create_statement (PyPath.stem ["/"; "src"; "broken.sql"]) ++
         transpiled_query)%string w1 =
      (IoRaise (Py (ParseError "Expecting )")), SampleFS.files)).
Proof.
  apply (transpile_file_raises SampleFS.world SampleFS.read_text SampleFS.write_text
           Samples.parse_one Samples.sql
           ["/"; "src"; "broken.sql"] ["/"; "out"; "broken.sql"]
           "bigquery" "postgres" (Py (ParseError "Expecting )"))
           SampleFS.files SampleFS.files).
  reflexivity.
Defined.

Lemma transpile_folder_stops_witness :
  transpile_folder SampleFS.read_text SampleFS.write_text SampleFS.mkdir
    SampleFS.resolve Samples.parse_one Samples.sql
    ["/"; "src"] ["/"; "out"] "bigquery" "postgres"
    ([["/"; "src"; "demo"; "patients.sql"]] ++
     ["/"; "src"; "broken.sql"] :: [["/"; "src"; "later.sql"]])
    SampleFS.files =
  (IoRaise (Py (ParseError "Expecting )")),
   (["/"; "out"; "demo"; "patients.sql"],
    ("-- THIS SCRIPT IS AUTOMATICALLY GENERATED. DO NOT EDIT IT DIRECTLY." ++ newline ++
     "DROP TABLE IF EXISTS patients; CREATE TABLE patients AS" ++ newline ++
     "SELECT * FROM mimiciv.patients")%string) :: SampleFS.files).
Proof.
  apply (transpile_folder_stops SampleFS.world SampleFS.read_text SampleFS.write_text
           SampleFS.mkdir SampleFS.resolve Samples.parse_one Samples.sql
           ["/"; "src"] ["/"; "out"] ["/"; "src"] "bigquery" "postgres"
           [["/"; "src"; "demo"; "patients.sql"]] [["/"; "src"; "later.sql"]]
           ["/"; "src"; "broken.sql"] (Py (ParseError "Expecting )"))
           SampleFS.files SampleFS.files
           ((["/"; "out"; "demo"; "patients.sql"],
             ("-- THIS SCRIPT IS AUTOMATICALLY GENERATED. DO NOT EDIT IT DIRECTLY." ++
              newline ++
              "DROP TABLE IF EXISTS patients; CREATE TABLE patients AS" ++ newline ++
              "SELECT * FROM mimiciv.patients")%string) :: SampleFS.files)).
  - reflexivity.
  - reflexivity.
  - reflexivity.
Defined.
